(** * Behaviour layer of the Fresh & Clean Laundry landing page (src/script.js)

  A shallow embedding of the DOM-enhancement features of [script.js]:
  form validation, the scroll-to-top control, the mobile menu, lazy image
  loading, smooth-scroll navigation and the error wrapping of the feature
  initialisers.  The DOM is modelled as the small pieces of state each
  feature reads and writes; JS strings are modelled as ASCII strings. *)

From Stdlib Require Import String Ascii List Bool ZArith Lia.
Import ListNotations.
Open Scope string_scope.

(** ** DOMTokenList (element.classList) *)
Module ClassList.

(** [classList.contains] *)
Fixpoint contains (c : string) (l : list string) : bool :=
  match l with
  | [] => false
  | x :: r => String.eqb x c || contains c r
  end.

(** [classList.add]: appends the token when it is not already present. *)
Definition add (c : string) (l : list string) : list string :=
  if contains c l then l else (l ++ [c])%list.

(** [classList.remove]: drops every occurrence of the token. *)
Definition remove (c : string) (l : list string) : list string :=
  filter (fun x => negb (String.eqb x c)) l.

End ClassList.

(** ** Strings as JS sees them (ASCII part) *)
Module JsString.

(** The ASCII characters in JS's WhiteSpace/LineTerminator sets, which are
    both what [String.prototype.trim] strips and what the regex class [\s]
    matches: TAB, LF, VT, FF, CR and SPACE. *)
Definition is_ws (c : ascii) : bool :=
  let n := nat_of_ascii c in
  (Nat.leb 9 n && Nat.leb n 13) || Nat.eqb n 32.

Fixpoint ltrim (s : string) : string :=
  match s with
  | EmptyString => EmptyString
  | String c r => if is_ws c then ltrim r else s
  end.

Fixpoint rtrim (s : string) : string :=
  match s with
  | EmptyString => EmptyString
  | String c r =>
      let r' := rtrim r in
      match r' with
      | EmptyString => if is_ws c then EmptyString else String c EmptyString
      | _ => String c r'
      end
  end.

(** [String.prototype.trim] *)
Definition trim (s : string) : string := rtrim (ltrim s).

Fixpoint all_chars (p : ascii -> bool) (s : string) : bool :=
  match s with
  | EmptyString => true
  | String c r => p c && all_chars p r
  end.

Definition is_empty (s : string) : bool :=
  match s with EmptyString => true | _ => false end.

End JsString.

(** ** Contact form validation (validateField, showFieldError, clearFieldError) *)
Module Form.
Import JsString.

(** One input/textarea together with the markers validation puts on it:
    its class list, its [aria-invalid] attribute and the text of the
    [.field-error] span in its parent element. *)
Record field := mkField {
  value : string;                 (* field.value *)
  ftype : string;                 (* field.type *)
  required : bool;                (* field.hasAttribute('required') *)
  classes : list string;          (* field.classList *)
  aria_invalid : option string;   (* field.getAttribute('aria-invalid') *)
  error_node : option string      (* textContent of parent's .field-error *)
}.

Definition FORM_ERROR := "error".

Definition with_markers (f : field) cl ai en : field :=
  mkField f.(value) f.(ftype) f.(required) cl ai en.

Definition with_value (f : field) v : field :=
  mkField v f.(ftype) f.(required) f.(classes) f.(aria_invalid) f.(error_node).

(** [clearFieldError] *)
Definition clearFieldError (f : field) : field :=
  with_markers f (ClassList.remove FORM_ERROR f.(classes)) None None.

(** [showFieldError]: an existing .field-error span is reused, otherwise
    one is created; either way its text becomes [message]. *)
Definition showFieldError (f : field) (message : string) : field :=
  with_markers f (ClassList.add FORM_ERROR f.(classes)) (Some "true")
    (Some message).

Definition MSG_REQUIRED := "This field is required".
Definition MSG_EMAIL := "Please enter a valid email address".
Definition MSG_PHONE := "Please enter a valid phone number".

(** [[^\s@]] *)
Definition not_ws_at (c : ascii) : bool :=
  negb (is_ws c) && negb (Ascii.eqb c "@"%char).

(** On a string without '@': does it match [[^\s@]+\.[^\s@]+], i.e. is
    there a '.' with at least one character before and after it? *)
Fixpoint dot_before_last (s : string) : bool :=
  match s with
  | EmptyString => false
  | String c r => (Ascii.eqb c "."%char && negb (is_empty r)) || dot_before_last r
  end.

Definition domain_ok (d : string) : bool :=
  match d with
  | EmptyString => false
  | String _ r => all_chars not_ws_at d && dot_before_last r
  end.

(** [/^[^\s@]+@[^\s@]+\.[^\s@]+$/.test(s)]: the local part runs up to
    the first '@' (it cannot contain one), the rest must be a domain. *)
Fixpoint email_local (acc_nonempty : bool) (s : string) : bool :=
  match s with
  | EmptyString => false
  | String c r =>
      if Ascii.eqb c "@"%char then acc_nonempty && domain_ok r
      else negb (is_ws c) && email_local true r
  end.

Definition emailRegex_test (s : string) : bool := email_local false s.

(** [[\d\s\-\+\(\)]] *)
Definition phone_char (c : ascii) : bool :=
  let n := nat_of_ascii c in
  (Nat.leb 48 n && Nat.leb n 57) || is_ws c
  || Ascii.eqb c "-"%char || Ascii.eqb c "+"%char
  || Ascii.eqb c "("%char || Ascii.eqb c ")"%char.

(** [/^[\d\s\-\+\(\)]+$/.test(s)] *)
Definition phoneRegex_test (s : string) : bool :=
  negb (is_empty s) && all_chars phone_char s.

(** [validateField]: returns the validity and the field afterwards. *)
Definition validateField (f : field) : bool * field :=
  let v := trim f.(value) in
  let f := clearFieldError f in
  if f.(required) && is_empty v then (false, showFieldError f MSG_REQUIRED)
  else if String.eqb f.(ftype) "email" && negb (is_empty v)
          && negb (emailRegex_test v)
  then (false, showFieldError f MSG_EMAIL)
  else if String.eqb f.(ftype) "tel" && negb (is_empty v)
          && negb (phoneRegex_test v)
  then (false, showFieldError f MSG_PHONE)
  else (true, f).

End Form.

(** The validation rules in the words of the spec: required-and-empty, then
  an email value failing the email pattern, then a phone value with a
  character outside digits, spaces, '+', '-' and parentheses.  [None]
  means the field passes; [Some m] names the error message shown. *)
Module FormRules.
Import JsString Form.

Definition spec_phone_char (c : ascii) : bool :=
  let n := nat_of_ascii c in
  (Nat.leb 48 n && Nat.leb n 57) || Ascii.eqb c " "%char
  || Ascii.eqb c "+"%char || Ascii.eqb c "-"%char
  || Ascii.eqb c "("%char || Ascii.eqb c ")"%char.

(** The rules as the claim states them, on the value validateField reads
    ([field.value.trim()]). *)
Definition claimed_rules (f : field) : option string :=
  let v := trim f.(value) in
  if f.(required) && is_empty v then Some MSG_REQUIRED
  else if String.eqb f.(ftype) "email" && negb (is_empty v)
          && negb (emailRegex_test v) then Some MSG_EMAIL
  else if String.eqb f.(ftype) "tel" && negb (is_empty v)
          && negb (all_chars spec_phone_char v) then Some MSG_PHONE
  else None.

(** The same rules with the phone character class read as the source's
    [[\d\s\-\+\(\)]]: any whitespace character is allowed. *)
Definition amended_rules (f : field) : option string :=
  let v := trim f.(value) in
  if f.(required) && is_empty v then Some MSG_REQUIRED
  else if String.eqb f.(ftype) "email" && negb (is_empty v)
          && negb (emailRegex_test v) then Some MSG_EMAIL
  else if String.eqb f.(ftype) "tel" && negb (is_empty v)
          && negb (all_chars phone_char v) then Some MSG_PHONE
  else None.

(** What a rule outcome says about validateField's result: a failure is
    reported as [false] with the message, the error class and
    [aria-invalid="true"]; a pass as [true] with none of the markers. *)
Definition outcome_matches (o : option string) (r : bool * field) : Prop :=
  match o with
  | Some m =>
      fst r = false /\ error_node (snd r) = Some m
      /\ aria_invalid (snd r) = Some "true"
      /\ ClassList.contains FORM_ERROR (classes (snd r)) = true
  | None =>
      fst r = true /\ error_node (snd r) = None /\ aria_invalid (snd r) = None
      /\ ClassList.contains FORM_ERROR (classes (snd r)) = false
  end.

End FormRules.

(** ** Lemmas about class lists and trimming *)
Module ClassListFacts.
Import ClassList.

Lemma contains_remove (c : string) (l : list string) :
  contains c (remove c l) = false.
Proof.
  induction l as [|x r IH]; [reflexivity|].
  unfold remove in *; simpl.
  destruct (String.eqb x c) eqn:E; simpl; [exact IH|].
  rewrite E; exact IH.
Qed.

Lemma contains_app (c : string) (l1 l2 : list string) :
  contains c (l1 ++ l2)%list = contains c l1 || contains c l2.
Proof.
  induction l1 as [|x r IH]; [reflexivity|].
  simpl; rewrite IH; apply orb_assoc.
Qed.

Lemma contains_add (c : string) (l : list string) :
  contains c (add c l) = true.
Proof.
  unfold add; destruct (contains c l) eqn:E; [exact E|].
  rewrite contains_app; simpl; rewrite String.eqb_refl; apply orb_true_r.
Qed.

Lemma remove_not_contained (c : string) (l : list string) :
  contains c l = false -> remove c l = l.
Proof.
  induction l as [|x r IH]; [reflexivity|].
  simpl; intros H; apply orb_false_iff in H as [H1 H2].
  unfold remove in *; simpl; rewrite H1; simpl; f_equal; exact (IH H2).
Qed.

Lemma remove_app (c : string) (l1 l2 : list string) :
  remove c (l1 ++ l2)%list = (remove c l1 ++ remove c l2)%list.
Proof. unfold remove; apply filter_app. Qed.

(** Adding then removing an absent token gives the list back. *)
Lemma remove_add_absent (c : string) (l : list string) :
  contains c l = false -> remove c (add c l) = l.
Proof.
  intros H; unfold add; rewrite H, remove_app, remove_not_contained by exact H.
  unfold remove; simpl; rewrite String.eqb_refl; apply app_nil_r.
Qed.

End ClassListFacts.

Module TrimFacts.
Import JsString.

Lemma ltrim_idem (s : string) : ltrim (ltrim s) = ltrim s.
Proof.
  induction s as [|c r IH]; [reflexivity|].
  simpl; destruct (is_ws c) eqn:E; [exact IH|].
  simpl; rewrite E; reflexivity.
Qed.

Lemma rtrim_cons (c : ascii) (r : string) :
  rtrim (String c r) =
  match rtrim r with
  | EmptyString => if is_ws c then EmptyString else String c EmptyString
  | r' => String c r'
  end.
Proof. simpl; destruct (rtrim r); reflexivity. Qed.

Lemma rtrim_idem (s : string) : rtrim (rtrim s) = rtrim s.
Proof.
  induction s as [|c r IH]; [reflexivity|].
  rewrite rtrim_cons; destruct (rtrim r) as [|d t] eqn:E.
  - destruct (is_ws c) eqn:W; [reflexivity|].
    rewrite rtrim_cons; simpl; rewrite W; reflexivity.
  - rewrite rtrim_cons, IH; reflexivity.
Qed.

Lemma ltrim_rtrim_fixed (s : string) :
  ltrim s = s -> ltrim (rtrim s) = rtrim s.
Proof.
  destruct s as [|c r]; [reflexivity|].
  simpl; intros H; destruct (is_ws c) eqn:W.
  - exfalso; assert (Hl : String.length (ltrim r) <= String.length r).
    { clear H W; induction r as [|d t IH]; simpl; [lia|].
      destruct (is_ws d); simpl; lia. }
    rewrite H in Hl; simpl in Hl; lia.
  - destruct (rtrim r); simpl; rewrite W; reflexivity.
Qed.

Lemma trim_idem (s : string) : trim (trim s) = trim s.
Proof.
  unfold trim.
  rewrite (ltrim_rtrim_fixed (ltrim s)) by apply ltrim_idem.
  apply rtrim_idem.
Qed.

Lemma trim_all_ws (s : string) : all_chars is_ws s = true -> trim s = EmptyString.
Proof.
  unfold trim; induction s as [|c r IH]; [reflexivity|].
  simpl; intros H; apply andb_true_iff in H as [H1 H2].
  rewrite H1; exact (IH H2).
Qed.

End TrimFacts.

(** ** Form validation: claims *)
Module FormClaims.
Import JsString Form FormRules ClassListFacts TrimFacts.

Definition TAB : ascii := ascii_of_nat 9.

(** A phone field holding "555<TAB>1234". *)
Definition tab_phone : field :=
  mkField ("555" ++ String TAB "1234") "tel" false [] None None.

Lemma guarded_phone (b : bool) (v : string) :
  b && negb (is_empty v) && negb (phoneRegex_test v)
  = b && negb (is_empty v) && negb (all_chars phone_char v).
Proof. unfold phoneRegex_test; destruct b, (is_empty v); reflexivity. Qed.

Lemma outcome_fail (f : field) (m : string) :
  outcome_matches (Some m) (false, showFieldError (clearFieldError f) m).
Proof.
  simpl; repeat split; apply contains_add.
Qed.

Lemma outcome_pass (f : field) :
  outcome_matches None (true, clearFieldError f).
Proof.
  simpl; repeat split; apply contains_remove.
Qed.

(** C1 (as stated, counterexample): the claim's phone rule rejects any
    character outside digits, spaces, '+', '-' and parentheses, so it
    requires a phone error for "555<TAB>1234"; validateField accepts the
    value, because [\s] in the phone pattern matches the tab. *)
Lemma validateField_tab_phone_accepted :
  claimed_rules tab_phone = Some MSG_PHONE
  /\ fst (validateField tab_phone) = true
  /\ ~ outcome_matches (claimed_rules tab_phone) (validateField tab_phone).
Proof.
  vm_compute. split; [reflexivity|]. split; [reflexivity|].
  intros [H _]; discriminate H.
Qed.

(** C1 (amended): on the trimmed value, validateField applies the rules in
    order with the first failure winning: required-and-empty gives the
    required error; a non-empty email value failing
    [^[^\s@]+@[^\s@]+\.[^\s@]+$] gives the email error; a non-empty tel
    value with a character outside digits, whitespace, '+', '-' and
    parentheses gives the phone error; each failure returns false and
    marks the field (error class, aria-invalid, error text); otherwise it
    returns true and the field carries no error marker.  The value itself
    is never changed. *)
Theorem validateField_rules_in_order (f : field) :
  outcome_matches (amended_rules f) (validateField f)
  /\ value (snd (validateField f)) = value f.
Proof.
  unfold validateField, amended_rules.
  change (required (clearFieldError f)) with (required f).
  change (ftype (clearFieldError f)) with (ftype f).
  rewrite guarded_phone.
  destruct (required f && is_empty (trim (value f))).
  { split; [apply outcome_fail | reflexivity]. }
  destruct (String.eqb (ftype f) "email" && negb (is_empty (trim (value f)))
            && negb (emailRegex_test (trim (value f)))).
  { split; [apply outcome_fail | reflexivity]. }
  destruct (String.eqb (ftype f) "tel" && negb (is_empty (trim (value f)))
            && negb (all_chars phone_char (trim (value f)))).
  { split; [apply outcome_fail | reflexivity]. }
  split; [apply outcome_pass | reflexivity].
Qed.

(** C10: values are trimmed before validation: a required field holding
    only whitespace fails with the required error, and validateField gives
    the same verdict and the same markers on a value as on its trimmed
    form, so the email and phone patterns only ever see the trimmed
    value. *)
Theorem validateField_trims_value (f : field) :
  (required f = true -> all_chars is_ws (value f) = true ->
   outcome_matches (Some MSG_REQUIRED) (validateField f))
  /\ validateField (with_value f (trim (value f)))
     = (fst (validateField f), with_value (snd (validateField f)) (trim (value f))).
Proof.
  split.
  - intros Hr Hw; unfold validateField.
    change (required (clearFieldError f)) with (required f).
    rewrite Hr, (trim_all_ws _ Hw); apply outcome_fail.
  - destruct f as [v t r cl ai en]; unfold validateField.
    cbn [value with_value clearFieldError with_markers required ftype].
    rewrite trim_idem; set (w := trim v).
    destruct (r && is_empty w); [reflexivity|].
    destruct (String.eqb t "email" && negb (is_empty w)
              && negb (emailRegex_test w)); [reflexivity|].
    destruct (String.eqb t "tel" && negb (is_empty w)
              && negb (phoneRegex_test w)); reflexivity.
Qed.

(** A required text field holding "  \t " is reported as required. *)
Lemma validateField_trims_value_witness :
  required (mkField ("  " ++ String TAB " ") "text" true [] None None) = true
  /\ all_chars is_ws (value (mkField ("  " ++ String TAB " ") "text" true [] None None)) = true
  /\ outcome_matches (Some MSG_REQUIRED)
       (validateField (mkField ("  " ++ String TAB " ") "text" true [] None None)).
Proof.
  split; [reflexivity|]. split; [vm_compute; reflexivity|].
  apply (proj1 (validateField_trims_value
                  (mkField ("  " ++ String TAB " ") "text" true [] None None)));
    vm_compute; reflexivity.
Defined.

(** The spec's examples: "not-an-email" is rejected, "a@b.co" accepted,
    " a@b.co " accepted after trimming. *)
Example validateField_examples :
  fst (validateField (mkField "not-an-email" "email" false [] None None)) = false
  /\ fst (validateField (mkField "a@b.co" "email" false [] None None)) = true
  /\ fst (validateField (mkField " a@b.co " "email" true [] None None)) = true
  /\ snd (validateField (mkField "" "email" true [] None None)) =
     mkField "" "email" true ["error"] (Some "true") (Some MSG_REQUIRED).
Proof. vm_compute; repeat split. Qed.

End FormClaims.

(** ** Scroll-to-top control (handleScroll, CONFIG) *)
Module ScrollTop.

Definition SCROLL_TO_TOP_THRESHOLD : Z := 300.
Definition SCROLL_TO_TOP_VISIBLE := "visible".

(** What handleScroll reads and writes: [window.pageYOffset],
    [document.documentElement.scrollTop] and the class list of the first
    [.scroll-to-top] element, if there is one. *)
Record scroll_state := mkScroll {
  pageYOffset : Z;
  scrollTop : Z;
  scroll_button : option (list string)
}.

(** [window.pageYOffset || document.documentElement.scrollTop] *)
Definition scrollPosition (s : scroll_state) : Z :=
  if Z.eqb s.(pageYOffset) 0 then s.(scrollTop) else s.(pageYOffset).

(** [handleScroll] *)
Definition handleScroll (s : scroll_state) : scroll_state :=
  match s.(scroll_button) with
  | None => s
  | Some cl =>
      let cl' := if Z.gtb (scrollPosition s) SCROLL_TO_TOP_THRESHOLD
                 then ClassList.add SCROLL_TO_TOP_VISIBLE cl
                 else ClassList.remove SCROLL_TO_TOP_VISIBLE cl in
      mkScroll s.(pageYOffset) s.(scrollTop) (Some cl')
  end.

End ScrollTop.

(** ** Mobile menu (open/close/toggle and the listeners that close it) *)
Module Menu.

Definition MOBILE_MENU_OPEN := "mobile-menu-open".
Definition MOBILE_BREAKPOINT : Z := 768.

(** The toggle button: its class list and its [aria-expanded] attribute. *)
Record toggle_btn := mkToggle { tclasses : list string; aria_expanded : option string }.

(** [document.querySelector('header nav')] (its class list) and
    [document.querySelector('.mobile-menu-toggle')]. *)
Record menu := mkMenu { nav : option (list string); toggle : option toggle_btn }.

(** [openMobileMenu] *)
Definition openMobileMenu (m : menu) : menu :=
  match m.(nav), m.(toggle) with
  | Some n, Some t =>
      mkMenu (Some (ClassList.add MOBILE_MENU_OPEN n))
             (Some (mkToggle (ClassList.add MOBILE_MENU_OPEN t.(tclasses)) (Some "true")))
  | _, _ => m
  end.

(** [closeMobileMenu] *)
Definition closeMobileMenu (m : menu) : menu :=
  match m.(nav), m.(toggle) with
  | Some n, Some t =>
      mkMenu (Some (ClassList.remove MOBILE_MENU_OPEN n))
             (Some (mkToggle (ClassList.remove MOBILE_MENU_OPEN t.(tclasses)) (Some "false")))
  | _, _ => m
  end.

(** [toggleMobileMenu] (its try/catch never fires on this model). *)
Definition toggleMobileMenu (m : menu) : menu :=
  match m.(nav), m.(toggle) with
  | Some n, Some _ =>
      if ClassList.contains MOBILE_MENU_OPEN n then closeMobileMenu m
      else openMobileMenu m
  | _, _ => m
  end.

(** [handleOutsideClick]: [in_nav] and [in_toggle] are
    [nav.contains(event.target)] and [menuToggle.contains(event.target)]. *)
Definition handleOutsideClick (in_nav in_toggle : bool) (m : menu) : menu :=
  match m.(nav), m.(toggle) with
  | Some n, Some _ =>
      if negb (ClassList.contains MOBILE_MENU_OPEN n) then m
      else if negb in_nav && negb in_toggle then closeMobileMenu m else m
  | _, _ => m
  end.

(** [handleEscapeKey] *)
Definition handleEscapeKey (key : string) (keyCode : Z) (m : menu) : menu :=
  if String.eqb key "Escape" || Z.eqb keyCode 27 then closeMobileMenu m else m.

(** [handleResize] *)
Definition handleResize (innerWidth : Z) (m : menu) : menu :=
  if Z.geb innerWidth MOBILE_BREAKPOINT then closeMobileMenu m else m.

(** [createMobileMenuToggle]: class [mobile-menu-toggle],
    [aria-expanded="false"]. *)
Definition createMobileMenuToggle : toggle_btn :=
  mkToggle ["mobile-menu-toggle"] (Some "false").

(** The menu part of [initMobileMenu]: a toggle is created only when the
    markup has none. *)
Definition initMobileMenu (m : menu) : menu :=
  match m.(nav), m.(toggle) with
  | Some n, None => mkMenu (Some n) (Some createMobileMenuToggle)
  | _, _ => m
  end.

(** The events that reach the menu after initialisation; [SmoothScroll]
    is the [closeMobileMenu()] call of handleSmoothScroll. *)
Inductive menu_event :=
| Open | Close | ToggleClick
| OutsideClick (in_nav in_toggle : bool)
| KeyDown (key : string) (keyCode : Z)
| Resize (innerWidth : Z)
| SmoothScroll.

Definition dispatch (e : menu_event) (m : menu) : menu :=
  match e with
  | Open => openMobileMenu m
  | Close => closeMobileMenu m
  | ToggleClick => toggleMobileMenu m
  | OutsideClick a b => handleOutsideClick a b m
  | KeyDown k c => handleEscapeKey k c m
  | Resize w => handleResize w m
  | SmoothScroll => closeMobileMenu m
  end.

Definition run_events (es : list menu_event) (m : menu) : menu :=
  fold_left (fun m e => dispatch e m) es m.

(** The three open-indicators agree: nav class, toggle class and
    [aria-expanded="true"]. *)
Definition synced (m : menu) : Prop :=
  match m.(nav), m.(toggle) with
  | Some n, Some t =>
      ClassList.contains MOBILE_MENU_OPEN n = ClassList.contains MOBILE_MENU_OPEN t.(tclasses)
      /\ ClassList.contains MOBILE_MENU_OPEN n
         = match t.(aria_expanded) with Some a => String.eqb a "true" | None => false end
  | _, _ => True
  end.

End Menu.

(** ** Lazy image loading (loadImage) *)
Module LazyImage.

Definition LAZY_LOADED := "lazy-loaded".

Record image := mkImage {
  iclasses : list string;       (* image.classList *)
  src : option string;          (* image.getAttribute('src') *)
  complete : bool;              (* image.complete *)
  listeners : list string       (* event types with a listener added here *)
}.

(** [loadImage] *)
Definition loadImage (img : image) : image :=
  if ClassList.contains LAZY_LOADED img.(iclasses) then img
  else match img.(src) with
       | None | Some EmptyString => img
       | Some _ =>
           let ls := (img.(listeners) ++ ["load"; "error"])%list in
           let cl := if img.(complete) then ClassList.add LAZY_LOADED img.(iclasses)
                     else img.(iclasses) in
           mkImage cl img.(src) img.(complete) ls
       end.

End LazyImage.

(** ** Scroll-to-top, menu and image claims *)
Module ScrollTopClaims.
Import ScrollTop.

(** In a document where [pageYOffset] and [documentElement.scrollTop]
    both report the vertical offset [y], handleScroll reads [y]. *)
Lemma scrollPosition_offset (y : Z) (b : option (list string)) :
  scrollPosition (mkScroll y y b) = y.
Proof. unfold scrollPosition; simpl; destruct (Z.eqb y 0); reflexivity. Qed.

(** C2: after handleScroll runs with vertical offset [y], the
    scroll-to-top button has the class [visible] exactly when [y > 300]. *)
Theorem handleScroll_visible_iff (y : Z) (cl : list string) :
  match scroll_button (handleScroll (mkScroll y y (Some cl))) with
  | Some cl' => ClassList.contains SCROLL_TO_TOP_VISIBLE cl' = true <-> (y > 300)%Z
  | None => False
  end.
Proof.
  unfold handleScroll; simpl; rewrite scrollPosition_offset.
  unfold SCROLL_TO_TOP_THRESHOLD; destruct (Z.gtb y 300) eqn:E.
  - rewrite ClassListFacts.contains_add; apply Z.gtb_lt in E; split; intros; lia.
  - rewrite ClassListFacts.contains_remove.
    rewrite Z.gtb_ltb, Z.ltb_ge in E; split; intros H; [discriminate H | lia].
Qed.

Example handleScroll_boundaries :
  scroll_button (handleScroll (mkScroll 0 0 (Some ["scroll-to-top"; "visible"])))
    = Some ["scroll-to-top"]
  /\ scroll_button (handleScroll (mkScroll 300 300 (Some ["scroll-to-top"])))
    = Some ["scroll-to-top"]
  /\ scroll_button (handleScroll (mkScroll 301 301 (Some ["scroll-to-top"])))
    = Some ["scroll-to-top"; "visible"].
Proof. vm_compute; repeat split. Qed.

End ScrollTopClaims.

Module MenuClaims.
Import Menu ClassListFacts.

(** A nav without the open class and a toggle from the markup that has no
    [aria-expanded] attribute. *)
Definition markup_toggle_menu : menu :=
  mkMenu (Some []) (Some (mkToggle ["mobile-menu-toggle"] None)).

(** C4 (as stated, counterexample): with a toggle from the markup that has
    no [aria-expanded] attribute, open then close leaves
    [aria-expanded="false"], not the initial absent attribute. *)
Lemma toggle_twice_sets_aria :
  toggleMobileMenu (toggleMobileMenu markup_toggle_menu)
    = mkMenu (Some []) (Some (mkToggle ["mobile-menu-toggle"] (Some "false")))
  /\ toggleMobileMenu (toggleMobileMenu markup_toggle_menu) <> markup_toggle_menu.
Proof. split; [reflexivity | discriminate]. Qed.

(** C4 (amended): from a closed menu (neither the nav nor the toggle has
    [mobile-menu-open]), toggling twice gives back the nav's and the
    toggle's class lists unchanged and leaves [aria-expanded="false"]; so
    when the toggle started with [aria-expanded="false"] (as the toggle
    the script creates does), the whole state is restored. *)
Theorem toggle_twice_restores (n : list string) (t : toggle_btn)
  (Hn : ClassList.contains MOBILE_MENU_OPEN n = false)
  (Ht : ClassList.contains MOBILE_MENU_OPEN t.(tclasses) = false) :
  toggleMobileMenu (toggleMobileMenu (mkMenu (Some n) (Some t)))
    = mkMenu (Some n) (Some (mkToggle t.(tclasses) (Some "false")))
  /\ (t.(aria_expanded) = Some "false" ->
      toggleMobileMenu (toggleMobileMenu (mkMenu (Some n) (Some t)))
        = mkMenu (Some n) (Some t)).
Proof.
  assert (E : toggleMobileMenu (toggleMobileMenu (mkMenu (Some n) (Some t)))
              = mkMenu (Some n) (Some (mkToggle t.(tclasses) (Some "false")))).
  { unfold toggleMobileMenu at 2; simpl; rewrite Hn.
    unfold toggleMobileMenu, openMobileMenu; simpl.
    rewrite contains_add; unfold closeMobileMenu; simpl.
    rewrite !remove_add_absent by assumption; reflexivity. }
  split; [exact E|].
  intros Ha; rewrite E; destruct t as [tc ta]; simpl in *; subst; reflexivity.
Qed.

Lemma toggle_twice_restores_witness :
  ClassList.contains MOBILE_MENU_OPEN ["main-nav"] = false
  /\ ClassList.contains MOBILE_MENU_OPEN (tclasses createMobileMenuToggle) = false
  /\ toggleMobileMenu (toggleMobileMenu (mkMenu (Some ["main-nav"]) (Some createMobileMenuToggle)))
     = mkMenu (Some ["main-nav"]) (Some createMobileMenuToggle).
Proof.
  split; [reflexivity|]. split; [reflexivity|].
  apply (proj2 (toggle_twice_restores ["main-nav"] createMobileMenuToggle
                  eq_refl eq_refl)); reflexivity.
Defined.

Lemma synced_open (m : menu) : synced m -> synced (openMobileMenu m).
Proof.
  destruct m as [[n|] [t|]]; unfold openMobileMenu, synced; simpl; auto.
  intros _; rewrite !contains_add; split; reflexivity.
Qed.

Lemma synced_close (m : menu) : synced m -> synced (closeMobileMenu m).
Proof.
  destruct m as [[n|] [t|]]; unfold closeMobileMenu, synced; simpl; auto.
  intros _; rewrite !contains_remove; split; reflexivity.
Qed.

Lemma synced_dispatch (e : menu_event) (m : menu) :
  synced m -> synced (dispatch e m).
Proof.
  intros H; destruct e; simpl.
  - apply synced_open, H.
  - apply synced_close, H.
  - unfold toggleMobileMenu; destruct (nav m), (toggle m); auto.
    destruct (ClassList.contains MOBILE_MENU_OPEN l);
      [apply synced_close | apply synced_open]; exact H.
  - unfold handleOutsideClick; destruct (nav m), (toggle m); auto.
    destruct (negb (ClassList.contains MOBILE_MENU_OPEN l)); auto.
    destruct (negb in_nav && negb in_toggle); auto; apply synced_close, H.
  - unfold handleEscapeKey; destruct (String.eqb key "Escape" || Z.eqb keyCode 27);
      auto; apply synced_close, H.
  - unfold handleResize; destruct (Z.geb innerWidth MOBILE_BREAKPOINT);
      auto; apply synced_close, H.
  - apply synced_close, H.
Qed.

(** C9: the nav has [mobile-menu-open] iff the toggle has it iff the
    toggle's [aria-expanded] is ["true"]; initMobileMenu establishes this
    for a nav without the class when it creates the toggle, and every
    sequence of menu operations (open, close, toggle, outside click,
    escape key, resize, smooth-scroll close) preserves it. *)
Theorem menu_sync_preserved :
  (forall n, ClassList.contains MOBILE_MENU_OPEN n = false ->
     synced (initMobileMenu (mkMenu (Some n) None)))
  /\ (forall (es : list menu_event) (m : menu), synced m -> synced (run_events es m)).
Proof.
  split.
  - intros n Hn; unfold synced; simpl; rewrite Hn; split; reflexivity.
  - induction es as [|e es IH]; intros m H; [exact H|].
    simpl; apply IH, synced_dispatch, H.
Qed.

Lemma menu_sync_preserved_witness :
  synced (run_events [ToggleClick; OutsideClick false false; ToggleClick;
                      KeyDown "Escape" 27; Resize 1024; SmoothScroll]
            (initMobileMenu (mkMenu (Some ["main-nav"]) None))).
Proof.
  apply (proj2 menu_sync_preserved).
  apply (proj1 menu_sync_preserved); reflexivity.
Defined.

End MenuClaims.

Module LazyImageClaims.
Import LazyImage.

(** C7 (as stated, counterexample): an image with no [src] attribute
    (for instance one using only [srcset]) is complete, yet loadImage
    returns at its [!src] guard and does not mark it. *)
Lemma loadImage_no_src_unmarked :
  complete (mkImage [] None true []) = true
  /\ ClassList.contains LAZY_LOADED (iclasses (loadImage (mkImage [] None true []))) = false.
Proof. split; reflexivity. Qed.

(** C7 (amended): an image that is complete and has a non-empty [src]
    attribute carries [lazy-loaded] as soon as loadImage returns. *)
Theorem loadImage_complete_marked (img : image) (s : string)
  (Hc : complete img = true) (Hs : src img = Some s) (Hne : s <> EmptyString) :
  ClassList.contains LAZY_LOADED (iclasses (loadImage img)) = true.
Proof.
  unfold loadImage.
  destruct (ClassList.contains LAZY_LOADED (iclasses img)) eqn:E; [exact E|].
  rewrite Hs; destruct s as [|c r]; [contradiction|].
  simpl; rewrite Hc; apply ClassListFacts.contains_add.
Qed.

Lemma loadImage_complete_marked_witness :
  ClassList.contains LAZY_LOADED
    (iclasses (loadImage (mkImage [] (Some "images/wash.jpg") true []))) = true.
Proof.
  apply (loadImage_complete_marked _ "images/wash.jpg"); [reflexivity | reflexivity | discriminate].
Defined.

End LazyImageClaims.

(** ** The page: a state and exception monad over the document *)
Module Page.

(** JS exceptions the modelled code can raise: [querySelector] with an
    invalid selector raises a SyntaxError; other DOM failures are
    TypeErrors. *)
Inductive exn := SyntaxError (selector : string) | TypeError (msg : string).

(** The success banner ([.form-success]); [bid] identifies the node. *)
Record banner_node := mkBanner { bid : nat; role : option string }.

Record world := mkWorld {
  menu : Menu.menu;
  prevented : bool;                 (* event.defaultPrevented *)
  scroll_calls : list Z;            (* window.scrollTo({top}) calls *)
  pushed : list string;             (* history.pushState URLs *)
  focused : option string;          (* id of the focused element *)
  console : list string;            (* console.error / console.log *)
  fields : list (Form.field * string);  (* the form's inputs with defaultValue *)
  form_classes : list string;       (* form.classList *)
  banner : option banner_node;      (* form.querySelector('.form-success') *)
  next_node : nat;                  (* identity of the next created node *)
  timers : list (Z * nat);          (* pending success timers: due time, banner *)
  now : Z                           (* clock, in ms *)
}.

Definition M (A : Type) : Type := world -> world * (A + exn).

Definition ret {A} (a : A) : M A := fun w => (w, inl a).
Definition throw {A} (e : exn) : M A := fun w => (w, inr e).
Definition bind {A B} (m : M A) (k : A -> M B) : M B :=
  fun w => match m w with
           | (w', inl a) => k a w'
           | (w', inr e) => (w', inr e)
           end.
Definition modify (f : world -> world) : M unit := fun w => (f w, inl tt).
Definition get : M world := fun w => (w, inl w).

Declare Scope page_scope.
Delimit Scope page_scope with page.
Notation "x <- m ;; k" := (bind m (fun x => k))
  (at level 61, m at next level, right associativity) : page_scope.
Notation "m ;; k" := (bind m (fun _ => k))
  (at level 61, right associativity) : page_scope.
Open Scope page_scope.

Definition set_menu (mn : Menu.menu) (w : world) : world :=
  mkWorld mn w.(prevented) w.(scroll_calls) w.(pushed) w.(focused) w.(console)
    w.(fields) w.(form_classes) w.(banner) w.(next_node) w.(timers) w.(now).
Definition set_prevented (w : world) : world :=
  mkWorld w.(menu) true w.(scroll_calls) w.(pushed) w.(focused) w.(console)
    w.(fields) w.(form_classes) w.(banner) w.(next_node) w.(timers) w.(now).
Definition add_scroll (y : Z) (w : world) : world :=
  mkWorld w.(menu) w.(prevented) (w.(scroll_calls) ++ [y])%list w.(pushed) w.(focused)
    w.(console) w.(fields) w.(form_classes) w.(banner) w.(next_node) w.(timers) w.(now).
Definition add_push (u : string) (w : world) : world :=
  mkWorld w.(menu) w.(prevented) w.(scroll_calls) (w.(pushed) ++ [u])%list w.(focused)
    w.(console) w.(fields) w.(form_classes) w.(banner) w.(next_node) w.(timers) w.(now).
Definition set_focus (id : string) (w : world) : world :=
  mkWorld w.(menu) w.(prevented) w.(scroll_calls) w.(pushed) (Some id) w.(console)
    w.(fields) w.(form_classes) w.(banner) w.(next_node) w.(timers) w.(now).
Definition add_console (msg : string) (w : world) : world :=
  mkWorld w.(menu) w.(prevented) w.(scroll_calls) w.(pushed) w.(focused)
    (w.(console) ++ [msg])%list
    w.(fields) w.(form_classes) w.(banner) w.(next_node) w.(timers) w.(now).
Definition set_form (fs : list (Form.field * string)) (fc : list string)
    (b : option banner_node) (nn : nat) (ts : list (Z * nat)) (w : world) : world :=
  mkWorld w.(menu) w.(prevented) w.(scroll_calls) w.(pushed) w.(focused) w.(console)
    fs fc b nn ts w.(now).

(** [logError(context, error)]: one console.error line. *)
Definition logError (context : string) : M unit :=
  modify (add_console ("[Fresh & Clean Laundry] " ++ context)).

(** [try { body } catch (error) { logError(context, error); }] *)
Definition wrap (context : string) (body : M unit) : M unit :=
  fun w => match body w with
           | (w', inl _) => (w', inl tt)
           | (w', inr _) => logError context w'
           end.

Definition preventDefault : M unit := modify set_prevented.
Definition closeMobileMenu : M unit :=
  fun w => (set_menu (Menu.closeMobileMenu w.(menu)) w, inl tt).

(** The read-only part of the document handleSmoothScroll consults. *)
Inductive qresult :=
| QElem (id : string) (top : Z)   (* element found, getBoundingClientRect().top *)
| QNull                          (* no element matches *)
| QThrows.                       (* the selector is invalid *)

Record doc := mkDoc {
  query : string -> qresult;      (* document.querySelector *)
  header_height : option Z;       (* header.offsetHeight, if a header exists *)
  pageYOffset : Z;
  has_pushState : bool
}.

Definition SCROLL_OFFSET : Z := 80.

(** [getScrollOffset] *)
Definition getScrollOffset (d : doc) : Z :=
  match d.(header_height) with Some h => h | None => SCROLL_OFFSET end.

Definition querySelector (d : doc) (sel : string) : M (option (string * Z)) :=
  match d.(query) sel with
  | QElem id top => ret (Some (id, top))
  | QNull => ret None
  | QThrows => throw (SyntaxError sel)
  end.

Definition starts_with_hash (s : string) : bool :=
  match s with String c _ => Ascii.eqb c "#"%char | EmptyString => false end.

(** [handleSmoothScroll]; [href] is [this.getAttribute('href')].  The
    world does not record element attributes: of the
    [setAttribute('tabindex', '-1')] / [focus()] /
    [removeAttribute('tabindex')] sequence only the focus move is kept
    (the removal also deletes a [tabindex] the target already had, which
    is not modelled). *)
Definition handleSmoothScroll (d : doc) (href : option string) : M unit :=
  wrap "Smooth scroll handler"
    (match href with
     | Some targetId =>
         if negb (starts_with_hash targetId) then ret tt else
         target <- querySelector d targetId ;;
         match target with
         | None => ret tt
         | Some (id, top) =>
             preventDefault ;;
             let offset := getScrollOffset d in
             modify (add_scroll (top + d.(pageYOffset) - offset)) ;;
             (if d.(has_pushState) then modify (add_push targetId) else ret tt) ;;
             closeMobileMenu ;;
             modify (set_focus id)
         end
     | None => ret tt
     end).

End Page.

(** ** Form submission (handleFormSubmit, validateForm, showFormSuccess) *)
Module FormSubmit.
Import Page.
Open Scope page_scope.

Definition FORM_SUCCESS := "success".
Definition SUCCESS_DELAY : Z := 5000.

(** [validateForm]: validateField on every input in document order (no
    short cut), the form is valid when all are.  Each field carries its
    own error node here; in the source the node is looked up in
    [field.parentElement], so fields sharing a parent share it. *)
Definition validateForm : M bool :=
  fun w =>
    let rs := map (fun fd => (Form.validateField (fst fd), snd fd)) w.(fields) in
    (set_form (map (fun r => (snd (fst r), snd r)) rs) w.(form_classes) w.(banner)
       w.(next_node) w.(timers) w,
     inl (forallb (fun r => fst (fst r)) rs)).

(** [showFormSuccess]: marks the form, reuses or creates the
    [.form-success] banner (created with [role="status"]) and schedules
    the reset [SUCCESS_DELAY] ms later for that banner node. *)
Definition showFormSuccess : M unit :=
  fun w =>
    let '(b, nn) :=
      match w.(banner) with
      | Some b => (b, w.(next_node))
      | None => (mkBanner w.(next_node) (Some "status"), S w.(next_node))
      end in
    (set_form w.(fields) (ClassList.add FORM_SUCCESS w.(form_classes)) (Some b) nn
       (w.(timers) ++ [((w.(now) + SUCCESS_DELAY)%Z, b.(bid))])%list w,
     inl tt).

(** [handleFormSubmit]: [preventDefault()] comes before the [try]. *)
Definition handleFormSubmit : M unit :=
  preventDefault ;;
  wrap "Form submit handler"
    (isValid <- validateForm ;;
     if isValid
     then modify (add_console "Form is valid and ready to submit") ;; showFormSuccess
     else ret tt).

(** The timer callback: [form.reset()] (every field back to its
    defaultValue), remove the success class, remove the banner node it
    captured. *)
Definition success_timeout (b : nat) (w : world) : world :=
  set_form (map (fun fd => (Form.with_value (fst fd) (snd fd), snd fd)) w.(fields))
    (ClassList.remove FORM_SUCCESS w.(form_classes))
    (match w.(banner) with
     | Some n => if Nat.eqb n.(bid) b then None else Some n
     | None => None
     end)
    w.(next_node) w.(timers) w.

(** Fire, in scheduling order, the timers due at or before [t]; return
    the world and the timers still pending. *)
Fixpoint fire_due (t : Z) (ts : list (Z * nat)) (w : world) : world * list (Z * nat) :=
  match ts with
  | [] => (w, [])
  | (d, b) :: r =>
      if Z.leb d t then fire_due t r (success_timeout b w)
      else let '(w', rest) := fire_due t r w in (w', (d, b) :: rest)
  end.

(** Let the clock run to [t] with no other event. *)
Definition advance (t : Z) (w : world) : world :=
  let '(w', rest) := fire_due t w.(timers) w in
  mkWorld w'.(menu) w'.(prevented) w'.(scroll_calls) w'.(pushed) w'.(focused)
    w'.(console) w'.(fields) w'.(form_classes) w'.(banner) w'.(next_node) rest t.

End FormSubmit.

(** ** Form submission claims *)
Module FormSubmitClaims.
Import Page FormSubmit.

Definition values (w : world) : list string :=
  map (fun fd => Form.value (fst fd)) w.(fields).
Definition defaults (w : world) : list string := map snd w.(fields).

Definition all_valid (fs : list (Form.field * string)) : bool :=
  forallb (fun fd => fst (Form.validateField (fst fd))) fs.

Lemma forallb_validated (fs : list (Form.field * string)) :
  forallb (fun r => fst (fst r))
    (map (fun fd => (Form.validateField (fst fd), snd fd)) fs) = all_valid fs.
Proof.
  unfold all_valid; induction fs as [|fd r IH]; [reflexivity|].
  simpl; rewrite IH; reflexivity.
Qed.

Lemma validateForm_result (w : world) :
  validateForm w =
  (set_form (map (fun fd => (snd (Form.validateField (fst fd)), snd fd)) w.(fields))
     w.(form_classes) w.(banner) w.(next_node) w.(timers) w,
   inl (all_valid w.(fields))).
Proof.
  unfold validateForm; rewrite map_map, forallb_validated; reflexivity.
Qed.

(** validateField either passes with the markers cleared or fails with
    one message shown. *)
Lemma validateField_cases (f : Form.field) :
  Form.validateField f = (true, Form.clearFieldError f)
  \/ exists m, Form.validateField f = (false, Form.showFieldError (Form.clearFieldError f) m).
Proof.
  unfold Form.validateField.
  destruct (_ && _); [right; eexists; reflexivity|].
  destruct (_ && _ && _); [right; eexists; reflexivity|].
  destruct (_ && _ && _); [right; eexists; reflexivity|].
  left; reflexivity.
Qed.

Lemma validateField_keeps_value (f : Form.field) :
  Form.value (snd (Form.validateField f)) = Form.value f.
Proof.
  destruct (validateField_cases f) as [E|[m E]]; rewrite E; reflexivity.
Qed.

(** handleFormSubmit, unfolded on the two outcomes of validateForm. *)
Lemma handleFormSubmit_result (w : world) :
  let w' := set_form (map (fun fd => (snd (Form.validateField (fst fd)), snd fd)) w.(fields))
              w.(form_classes) w.(banner) w.(next_node) w.(timers) (set_prevented w) in
  handleFormSubmit w =
  if all_valid w.(fields)
  then showFormSuccess (add_console "Form is valid and ready to submit" w')
  else (w', inl tt).
Proof.
  intros w'; unfold handleFormSubmit, bind, wrap, preventDefault, modify.
  rewrite validateForm_result; simpl.
  destruct (all_valid (fields w)); [|reflexivity].
  unfold showFormSuccess; simpl.
  destruct (banner w); reflexivity.
Qed.

Lemma fire_due_all (t : Z) (ts : list (Z * nat)) (w : world) :
  Forall (fun p => (fst p <= t)%Z) ts ->
  fire_due t ts w = (fold_left (fun w p => success_timeout (snd p) w) ts w, []).
Proof.
  revert w; induction ts as [|[d b] r IH]; intros w H; [reflexivity|].
  inversion H as [|? ? Hd Hr]; subst; simpl in Hd |- *.
  apply Z.leb_le in Hd; rewrite Hd; apply IH, Hr.
Qed.

Lemma success_timeout_fields (b : nat) (w : world) :
  defaults (success_timeout b w) = defaults w
  /\ values (success_timeout b w) = defaults w.
Proof.
  unfold defaults, values, success_timeout, set_form; simpl.
  rewrite !map_map; split; apply map_ext; intros [f d]; reflexivity.
Qed.

Lemma fold_success_fields (ts : list (Z * nat)) (w : world) :
  defaults (fold_left (fun w p => success_timeout (snd p) w) ts w) = defaults w.
Proof.
  revert w; induction ts as [|p r IH]; intros w; [reflexivity|].
  simpl; rewrite IH; apply success_timeout_fields.
Qed.

Lemma fold_success_banner (ts : list (Z * nat)) (w : world) (n : banner_node) :
  banner w = None \/ banner w = Some n ->
  let w' := fold_left (fun w p => success_timeout (snd p) w) ts w in
  banner w' = None \/ banner w' = Some n.
Proof.
  revert w; induction ts as [|p r IH]; intros w H; [exact H|].
  simpl; apply IH; unfold success_timeout, set_form; simpl.
  destruct H as [H|H]; rewrite H; [left; reflexivity|].
  destruct (Nat.eqb (bid n) (snd p)); [left | right]; reflexivity.
Qed.

(** C5: when every field passes validation, handleFormSubmit shows a
    [.form-success] banner with [role="status"]; when the clock then runs
    5000 ms with no further event, the form is reset (every field holds
    its default value, i.e. is empty when the markup gives none) and the
    banner is gone.  The page starts with no banner other than one this
    code created, and the timers already pending were scheduled earlier. *)
Theorem valid_submit_banner_then_reset (w : world)
  (Hvalid : all_valid w.(fields) = true)
  (Hban : match w.(banner) with Some n => role n = Some "status" | None => True end)
  (Htimers : Forall (fun p => (fst p <= now w + SUCCESS_DELAY)%Z) w.(timers)) :
  let w1 := fst (handleFormSubmit w) in
  (exists n, banner w1 = Some n /\ role n = Some "status")
  /\ ClassList.contains FORM_SUCCESS w1.(form_classes) = true
  /\ let w2 := advance (now w + SUCCESS_DELAY) w1 in
     values w2 = defaults w /\ banner w2 = None
     /\ ClassList.contains FORM_SUCCESS w2.(form_classes) = false
     /\ timers w2 = [].
Proof.
  rewrite handleFormSubmit_result, Hvalid.
  unfold showFormSuccess; simpl.
  set (b := match banner w with
            | Some b => (b, next_node w)
            | None => (mkBanner (next_node w) (Some "status"), S (next_node w))
            end).
  assert (Hb : role (fst b) = Some "status").
  { subst b; destruct (banner w); [exact Hban | reflexivity]. }
  destruct b as [n nn] eqn:Eb; simpl in Hb |- *.
  split; [exists n; split; [reflexivity | exact Hb]|].
  split; [apply ClassListFacts.contains_add|].
  unfold advance; simpl.
  rewrite fire_due_all.
  2:{ apply Forall_app; split; [exact Htimers|].
      constructor; [simpl; lia | constructor]. }
  rewrite fold_left_app; simpl.
  set (w' := fold_left _ (timers w) _).
  assert (Hd : defaults w' = defaults w).
  { subst w'; rewrite fold_success_fields; unfold defaults, set_form; simpl.
    rewrite !map_map; reflexivity. }
  assert (Hn : banner w' = None \/ banner w' = Some n).
  { apply fold_success_banner; right; reflexivity. }
  destruct (success_timeout_fields (bid n) w') as [_ Hv].
  split; [rewrite <- Hd; exact Hv|].
  split.
  - unfold success_timeout, set_form; simpl.
    destruct Hn as [Hn|Hn]; rewrite Hn; [reflexivity|].
    rewrite Nat.eqb_refl; reflexivity.
  - split; [apply ClassListFacts.contains_remove | reflexivity].
Qed.

(** A contact form with a required name, an email and a phone field. *)
Definition sample_fields (name email phone : string) : list (Form.field * string) :=
  [(Form.mkField name "text" true [] None None, "");
   (Form.mkField email "email" true [] None None, "");
   (Form.mkField phone "tel" false [] None None, "")].

Definition sample_world (fs : list (Form.field * string)) : world :=
  mkWorld (Menu.mkMenu None None) false [] [] None [] fs [] None 0 [] 1000.

Lemma valid_submit_banner_then_reset_witness :
  let w := sample_world (sample_fields "Ada" "ada@example.com" "+1 (555) 010-9999") in
  all_valid w.(fields) = true
  /\ values (advance (now w + SUCCESS_DELAY) (fst (handleFormSubmit w))) = ["";"";""].
Proof.
  simpl; split; [vm_compute; reflexivity|].
  destruct (valid_submit_banner_then_reset
              (sample_world (sample_fields "Ada" "ada@example.com" "+1 (555) 010-9999"))
              ltac:(vm_compute; reflexivity) I (Forall_nil _))
    as [_ [_ [Hv _]]].
  exact Hv.
Defined.

(** C6: every submit event has its default action prevented; when some
    field fails validation, the handler shows no success banner (the
    banner, the form's classes and the pending timers are as before) and
    leaves every field value unchanged. *)
Theorem submit_prevented_and_invalid_inert (w : world) :
  prevented (fst (handleFormSubmit w)) = true
  /\ (all_valid w.(fields) = false ->
      let w1 := fst (handleFormSubmit w) in
      banner w1 = banner w /\ form_classes w1 = form_classes w
      /\ timers w1 = timers w /\ values w1 = values w).
Proof.
  rewrite handleFormSubmit_result.
  destruct (all_valid (fields w)) eqn:E.
  - split; [|discriminate].
    unfold showFormSuccess; simpl; destruct (banner w); reflexivity.
  - split; [reflexivity|]; intros _; simpl.
    repeat split.
    unfold values; simpl; rewrite map_map.
    apply map_ext; intros [f d]; apply validateField_keeps_value.
Qed.

Lemma submit_prevented_and_invalid_inert_witness :
  let w := sample_world (sample_fields "Ada" "not-an-email" "") in
  all_valid w.(fields) = false
  /\ values (fst (handleFormSubmit w)) = ["Ada"; "not-an-email"; ""].
Proof.
  simpl; split; [vm_compute; reflexivity|].
  apply (proj2 (submit_prevented_and_invalid_inert
                  (sample_world (sample_fields "Ada" "not-an-email" "")))).
  vm_compute; reflexivity.
Defined.

End FormSubmitClaims.

(** ** Smooth-scroll claims *)
Module SmoothScrollClaims.
Import Page.

(** The href has no usable fragment: absent, not starting with '#', or
    not resolving to an element (nothing matches, or the selector is
    invalid, as "#" is). *)
Definition unresolved (d : doc) (href : option string) : bool :=
  match href with
  | None => true
  | Some t =>
      negb (starts_with_hash t)
      || match query d t with QElem _ _ => false | _ => true end
  end.

(** C8: on an unresolved href, handleSmoothScroll does not prevent the
    default navigation, issues no scroll, pushes no URL, leaves the menu
    and the focus as they were, and returns normally. *)
Theorem handleSmoothScroll_unresolved_noop (d : doc) (href : option string) (w : world)
  (H : unresolved d href = true) :
  let '(w', r) := handleSmoothScroll d href w in
  r = inl tt /\ prevented w' = prevented w /\ scroll_calls w' = scroll_calls w
  /\ pushed w' = pushed w /\ menu w' = menu w /\ focused w' = focused w.
Proof.
  unfold handleSmoothScroll, wrap.
  destruct href as [t|]; [|repeat split].
  simpl in H; destruct (starts_with_hash t); simpl in H |- *; [|repeat split].
  unfold bind, querySelector.
  destruct (query d t); [discriminate H | repeat split | repeat split].
Qed.

Definition sample_doc : doc :=
  mkDoc (fun s => if String.eqb s "#services" then QElem "services" 640%Z else
                  if String.eqb s "#" then QThrows else QNull)
        (Some 72%Z) 0%Z true.

Definition sample_world : world :=
  mkWorld (Menu.mkMenu (Some ["mobile-menu-open"])
             (Some (Menu.mkToggle ["mobile-menu-toggle"; "mobile-menu-open"] (Some "true"))))
    false [] [] None [] [] [] None 0 [] 0.

Lemma handleSmoothScroll_unresolved_noop_witness :
  unresolved sample_doc (Some "#") = true
  /\ prevented (fst (handleSmoothScroll sample_doc (Some "#") sample_world)) = false.
Proof.
  split; [reflexivity|].
  pose proof (handleSmoothScroll_unresolved_noop sample_doc (Some "#") sample_world
                eq_refl) as Hn.
  destruct (handleSmoothScroll sample_doc (Some "#") sample_world) as [w' r].
  destruct Hn as [_ [Hp _]]; exact Hp.
Defined.

(** A resolved link: default prevented, scroll to 640 + 0 - 72, URL
    pushed, menu closed, focus on the target. *)
Example handleSmoothScroll_resolved :
  let w' := fst (handleSmoothScroll sample_doc (Some "#services") sample_world) in
  prevented w' = true /\ scroll_calls w' = [568%Z] /\ pushed w' = ["#services"]
  /\ menu w' = Menu.mkMenu (Some []) (Some (Menu.mkToggle ["mobile-menu-toggle"] (Some "false")))
  /\ focused w' = Some "services".
Proof. vm_compute; repeat split. Qed.

End SmoothScrollClaims.

(** ** Error wrapping of initialisers and handlers *)
Module Guard.
Import Page.
Open Scope page_scope.

Section Init.
(** The bodies of the six feature initialisers, whatever they do. *)
Variables (smooth mobile lazy scrolltop form keyboard : M unit).

Definition initSmoothScrolling := wrap "Smooth scrolling initialization" smooth.
Definition initMobileMenu := wrap "Mobile menu initialization" mobile.
Definition initLazyLoading := wrap "Lazy loading initialization" lazy.
Definition initScrollToTop := wrap "Scroll to top initialization" scrolltop.
Definition initFormValidation := wrap "Form validation initialization" form.
Definition initKeyboardAccessibility :=
    wrap "Keyboard accessibility initialization" keyboard.

(** [initializeFeatures] *)
Definition initializeFeatures : M unit :=
    wrap "Feature initialization"
      (initSmoothScrolling ;; initMobileMenu ;; initLazyLoading ;;
       initScrollToTop ;; initFormValidation ;; initKeyboardAccessibility ;;
       modify (add_console
         "[Fresh & Clean Laundry] Interactive features initialized successfully")).

Definition init_list : list (M unit) :=
    [initSmoothScrolling; initMobileMenu; initLazyLoading;
     initScrollToTop; initFormValidation; initKeyboardAccessibility].

End Init.

(** Run computations one after the other, each on the world the previous
    one left, whatever its outcome. *)
Definition run_each (ms : list (M unit)) (w : world) : world :=
  fold_left (fun w m => fst (m w)) ms w.

End Guard.

Module GuardClaims.
Import Page Guard.
Open Scope page_scope.

Lemma wrap_result (ctx : string) (m : M unit) (w : world) :
  wrap ctx m w = (fst (wrap ctx m w), inl tt).
Proof. unfold wrap; destruct (m w) as [w' [a|e]]; reflexivity. Qed.

Lemma wrap_logs (ctx : string) (m : M unit) (w : world) (e : exn) :
  snd (m w) = inr e ->
  console (fst (wrap ctx m w)) =
    (console (fst (m w)) ++ [String.append "[Fresh & Clean Laundry] " ctx])%list.
Proof. unfold wrap; destruct (m w) as [w' [a|e']]; simpl; intros H; [discriminate H|reflexivity]. Qed.

Lemma wrap_ok (ctx : string) (m : M unit) (w w' : world) (a : unit) :
  m w = (w', inl a) -> wrap ctx m w = (w', inl tt).
Proof. unfold wrap; intros H; rewrite H; reflexivity. Qed.

Lemma bind_wrap {B} (ctx : string) (m : M unit) (k : unit -> M B) (w : world) :
  bind (wrap ctx m) k w = k tt (fst (wrap ctx m w)).
Proof. unfold bind; rewrite wrap_result; reflexivity. Qed.

(** A body that raises, as initMobileMenu's
    [header.querySelector('.header-container').insertBefore(...)] does on a
    header without that container. *)
Definition boom : M unit := throw (TypeError "Cannot read properties of null").

Definition w0 : world :=
  mkWorld (Menu.mkMenu None None) false [] [] None [] [] [] None 0 [] 0.

(** Whatever the six initialiser bodies do, initializeFeatures returns
    normally, runs every initialiser on the page the previous one left (a
    failure in one does not stop the next) and then logs its success
    line; a wrapped body that raises is caught and its context is logged.
    The wrapped handlers handleSmoothScroll and handleFormSubmit never let
    an exception out. *)
Lemma initializers_run_each (smooth mobile lazy scrolltop form keyboard : M unit) :
  (forall w, initializeFeatures smooth mobile lazy scrolltop form keyboard w =
     (add_console "[Fresh & Clean Laundry] Interactive features initialized successfully"
        (run_each (init_list smooth mobile lazy scrolltop form keyboard) w), inl tt))
  /\ (forall ctx (m : M unit) w e, snd (m w) = inr e ->
        wrap ctx m w = (add_console (String.append "[Fresh & Clean Laundry] " ctx) (fst (m w)), inl tt))
  /\ (forall d href w, snd (handleSmoothScroll d href w) = inl tt)
  /\ (forall w, snd (FormSubmit.handleFormSubmit w) = inl tt).
Proof.
  split; [|split; [|split]].
  - intros w; unfold initializeFeatures; apply (wrap_ok _ _ _ _ tt).
    unfold initSmoothScrolling, initMobileMenu, initLazyLoading, initScrollToTop,
      initFormValidation, initKeyboardAccessibility.
    rewrite !bind_wrap; reflexivity.
  - intros ctx m w e H; unfold wrap, logError, modify.
    destruct (m w) as [w' [a|e']]; simpl in H; [discriminate H | reflexivity].
  - intros d href w; unfold handleSmoothScroll; rewrite wrap_result; reflexivity.
  - intros w; unfold FormSubmit.handleFormSubmit, preventDefault, modify, bind at 1.
    rewrite wrap_result; reflexivity.
Qed.

End GuardClaims.

(** ** Further properties of the menu listeners *)
Module Styles.

(** [document.head] as the ids of its style blocks. *)
Definition head := list string.

(** The guard of addMobileMenuStyles / addScrollToTopStyles: append a
    style block with this id unless one is already there. *)
Definition ensure_style (id : string) (h : head) : head :=
  if existsb (String.eqb id) h then h else (h ++ [id])%list.

(** [addMobileMenuStyles] *)
Definition addMobileMenuStyles (h : head) : head := ensure_style "mobile-menu-styles" h.

(** [addScrollToTopStyles] *)
Definition addScrollToTopStyles (h : head) : head := ensure_style "scroll-to-top-styles" h.

(** The DOM part of [initMobileMenu] with the style blocks.  Without a
    [header nav] nothing happens (a nav under [header] implies the
    header).  With a nav and no toggle, createMobileMenuToggle builds the
    toggle and adds the styles, then
    [header.querySelector('.header-container').insertBefore(menuToggle, nav)]
    inserts it; [container] tells whether the header has a
    [.header-container] that is the nav's parent.  Otherwise that call
    raises (TypeError on null, or NotFoundError), after the style block
    was added: no toggle is inserted, the listeners are not registered,
    and the initialiser's try/catch logs the error.  The boolean result
    is [true] when that happened. *)
Definition initMobileMenuDom (container : bool) (m : Menu.menu) (h : head)
  : Menu.menu * head * bool :=
  match m.(Menu.nav), m.(Menu.toggle) with
  | Some n, None =>
      let h' := addMobileMenuStyles h in
      if container then (Menu.mkMenu (Some n) (Some Menu.createMobileMenuToggle), h', false)
      else (m, h', true)
  | _, _ => (m, h, false)
  end.

End Styles.

Module MenuProps.
Import Menu ClassListFacts.

(** Both menu elements exist and the menu is closed. *)
Definition closed_state (m : menu) : Prop :=
  match m.(nav), m.(toggle) with
  | Some n, Some t =>
      ClassList.contains MOBILE_MENU_OPEN n = false
      /\ ClassList.contains MOBILE_MENU_OPEN t.(tclasses) = false
      /\ t.(aria_expanded) = Some "false"
  | _, _ => False
  end.

Lemma closeMobileMenu_closed (n : list string) (t : toggle_btn) :
  closed_state (closeMobileMenu (mkMenu (Some n) (Some t))).
Proof. unfold closed_state; simpl; rewrite !contains_remove; auto. Qed.

(** handleResize: at a width of 768 or more the menu ends closed,
    whatever its state; below 768 nothing changes. *)
Theorem handleResize_breakpoint (width : Z) (n : list string) (t : toggle_btn) :
  ((width >= 768)%Z -> closed_state (handleResize width (mkMenu (Some n) (Some t))))
  /\ ((width < 768)%Z -> handleResize width (mkMenu (Some n) (Some t)) = mkMenu (Some n) (Some t)).
Proof.
  unfold handleResize, MOBILE_BREAKPOINT; split; intros H.
  - replace (Z.geb width 768) with true by (symmetry; apply Z.geb_le; lia).
    apply closeMobileMenu_closed.
  - replace (Z.geb width 768) with false by (symmetry; rewrite Z.geb_leb; apply Z.leb_gt; lia).
    reflexivity.
Qed.

Lemma handleResize_breakpoint_witness :
  closed_state (handleResize 1024 (mkMenu (Some [MOBILE_MENU_OPEN])
                  (Some (mkToggle [MOBILE_MENU_OPEN] (Some "true"))))).
Proof. apply (proj1 (handleResize_breakpoint 1024 _ _)); lia. Defined.

(** handleOutsideClick: a click inside the nav or the toggle never
    changes the menu, nor does any click while the menu is closed; a click
    outside both while the nav is open closes the menu. *)
Theorem handleOutsideClick_cases (in_nav in_toggle : bool) (n : list string) (t : toggle_btn) :
  let m := mkMenu (Some n) (Some t) in
  (in_nav || in_toggle = true -> handleOutsideClick in_nav in_toggle m = m)
  /\ (ClassList.contains MOBILE_MENU_OPEN n = false -> handleOutsideClick in_nav in_toggle m = m)
  /\ (ClassList.contains MOBILE_MENU_OPEN n = true -> in_nav = false -> in_toggle = false ->
      closed_state (handleOutsideClick in_nav in_toggle m)).
Proof.
  unfold handleOutsideClick; simpl; split; [|split].
  - intros H; destruct (ClassList.contains MOBILE_MENU_OPEN n); [|reflexivity].
    destruct in_nav, in_toggle; try discriminate H; reflexivity.
  - intros H; rewrite H; reflexivity.
  - intros H -> ->; rewrite H; apply closeMobileMenu_closed.
Qed.

Lemma handleOutsideClick_cases_witness :
  handleOutsideClick true false (mkMenu (Some [MOBILE_MENU_OPEN]) (Some (mkToggle [MOBILE_MENU_OPEN] (Some "true"))))
  = mkMenu (Some [MOBILE_MENU_OPEN]) (Some (mkToggle [MOBILE_MENU_OPEN] (Some "true")))
  /\ closed_state (handleOutsideClick false false
       (mkMenu (Some [MOBILE_MENU_OPEN]) (Some (mkToggle [MOBILE_MENU_OPEN] (Some "true"))))).
Proof.
  destruct (handleOutsideClick_cases true false [MOBILE_MENU_OPEN] (mkToggle [MOBILE_MENU_OPEN] (Some "true")))
    as [H1 _].
  destruct (handleOutsideClick_cases false false [MOBILE_MENU_OPEN] (mkToggle [MOBILE_MENU_OPEN] (Some "true")))
    as [_ [_ H3]].
  split; [apply H1; reflexivity | apply H3; reflexivity].
Defined.

(** handleEscapeKey: a key other than Escape (and keyCode other than 27)
    changes nothing; Escape or keyCode 27 leaves the menu closed. *)
Theorem handleEscapeKey_cases (key : string) (keyCode : Z) (n : list string) (t : toggle_btn) :
  let m := mkMenu (Some n) (Some t) in
  (key <> "Escape" -> keyCode <> 27%Z -> handleEscapeKey key keyCode m = m)
  /\ (key = "Escape" \/ keyCode = 27%Z -> closed_state (handleEscapeKey key keyCode m)).
Proof.
  unfold handleEscapeKey; simpl; split.
  - intros Hk Hc.
    destruct (String.eqb_spec key "Escape"); [contradiction|].
    destruct (Z.eqb_spec keyCode 27); [contradiction | reflexivity].
  - intros [->| ->]; [rewrite String.eqb_refl | rewrite Z.eqb_refl, orb_true_r];
      apply closeMobileMenu_closed.
Qed.

Lemma handleEscapeKey_cases_witness :
  handleEscapeKey "Enter" 13 (mkMenu (Some [MOBILE_MENU_OPEN]) (Some (mkToggle [] (Some "true"))))
  = mkMenu (Some [MOBILE_MENU_OPEN]) (Some (mkToggle [] (Some "true"))).
Proof. apply (proj1 (handleEscapeKey_cases "Enter" 13 _ _)); discriminate. Defined.

Definition is_open (m : menu) : bool :=
  match m.(nav) with Some n => ClassList.contains MOBILE_MENU_OPEN n | None => false end.

(** toggleMobileMenu on a synchronised menu flips it: open becomes closed
    and closed becomes open, and the three indicators stay in agreement. *)
Theorem toggleMobileMenu_flips (n : list string) (t : toggle_btn)
  (Hs : synced (mkMenu (Some n) (Some t))) :
  is_open (toggleMobileMenu (mkMenu (Some n) (Some t))) = negb (is_open (mkMenu (Some n) (Some t)))
  /\ synced (toggleMobileMenu (mkMenu (Some n) (Some t))).
Proof.
  unfold toggleMobileMenu, is_open; simpl.
  destruct (ClassList.contains MOBILE_MENU_OPEN n) eqn:E.
  - split; [simpl; apply contains_remove | apply MenuClaims.synced_close, Hs].
  - split; [simpl; apply contains_add | apply MenuClaims.synced_open, Hs].
Qed.

Lemma toggleMobileMenu_flips_witness :
  is_open (toggleMobileMenu (mkMenu (Some []) (Some createMobileMenuToggle))) = true.
Proof.
  apply (proj1 (toggleMobileMenu_flips [] createMobileMenuToggle
                  ltac:(split; reflexivity))).
Defined.

Lemma ensure_style_in (id : string) (h : Styles.head) : In id (Styles.ensure_style id h).
Proof.
  unfold Styles.ensure_style.
  destruct (existsb (String.eqb id) h) eqn:E.
  - apply existsb_exists in E as [x [Hx Hq]]; apply String.eqb_eq in Hq; subst; exact Hx.
  - apply in_or_app; right; left; reflexivity.
Qed.

Lemma ensure_style_idem (id : string) (h : Styles.head) :
  Styles.ensure_style id (Styles.ensure_style id h) = Styles.ensure_style id h.
Proof.
  unfold Styles.ensure_style at 1.
  replace (existsb (String.eqb id) (Styles.ensure_style id h)) with true; [reflexivity|].
  symmetry; apply existsb_exists; exists id; split; [apply ensure_style_in | apply String.eqb_refl].
Qed.

(** initMobileMenu's DOM work: a second run changes neither the menu nor
    the style blocks; a toggle already in the page is left as it is.
    When the toggle has to be created, it is inserted if the header has
    its [.header-container]; otherwise the call raises after the style
    block was added, leaving the styles but no toggle. *)
Theorem initMobileMenuDom_idempotent (container : bool) (m : menu) (h : Styles.head) :
  let r := Styles.initMobileMenuDom container m h in
  let r2 := Styles.initMobileMenuDom container (fst (fst r)) (snd (fst r)) in
  fst r2 = fst r
  /\ (m.(toggle) <> None -> r = (m, h, false))
  /\ (m.(nav) <> None -> m.(toggle) = None ->
      In "mobile-menu-styles" (snd (fst r))
      /\ (if container
          then toggle (fst (fst r)) = Some createMobileMenuToggle /\ snd r = false
          else fst (fst r) = m /\ snd r = true)).
Proof.
  unfold Styles.initMobileMenuDom, Styles.addMobileMenuStyles.
  destruct m as [[n|] [t|]]; simpl.
  - split; [reflexivity|]; split; [reflexivity|]; intros _ H; discriminate H.
  - destruct container; simpl.
    + split; [reflexivity|]; split; [intros H; contradiction H; reflexivity|].
      intros _ _; split; [apply ensure_style_in | split; reflexivity].
    + rewrite ensure_style_idem; split; [reflexivity|]; split; [intros H; contradiction H; reflexivity|].
      intros _ _; split; [apply ensure_style_in | split; reflexivity].
  - split; [reflexivity|]; split; [reflexivity|]; intros H; contradiction H; reflexivity.
  - split; [reflexivity|]; split; [intros H; contradiction H; reflexivity|].
    intros H; contradiction H; reflexivity.
Qed.

(** addMobileMenuStyles / addScrollToTopStyles: after a call the style
    block is present, and a second call adds nothing. *)
Theorem ensure_style_once (id : string) (h : Styles.head) :
  In id (Styles.ensure_style id h)
  /\ Styles.ensure_style id (Styles.ensure_style id h) = Styles.ensure_style id h.
Proof. split; [apply ensure_style_in | apply ensure_style_idem]. Qed.

End MenuProps.

Lemma initMobileMenuDom_idempotent_witness :
  In "mobile-menu-styles"
     (snd (fst (Styles.initMobileMenuDom false (Menu.mkMenu (Some []) None) [])))
  /\ fst (fst (Styles.initMobileMenuDom false (Menu.mkMenu (Some []) None) []))
     = Menu.mkMenu (Some []) None
  /\ snd (Styles.initMobileMenuDom false (Menu.mkMenu (Some []) None) []) = true.
Proof.
  destruct (MenuProps.initMobileMenuDom_idempotent false (Menu.mkMenu (Some []) None) [])
    as [_ [_ H]].
  destruct (H ltac:(discriminate) eq_refl) as [H1 [H2 H3]].
  split; [exact H1 | split; [exact H2 | exact H3]].
Defined.

(** ** Further properties of field validation *)
Module FormProps.
Import JsString Form ClassListFacts TrimFacts.

Lemma remove_add (c : string) (l : list string) :
  ClassList.remove c (ClassList.add c l) = ClassList.remove c l.
Proof.
  unfold ClassList.add; destruct (ClassList.contains c l); [reflexivity|].
  rewrite remove_app; unfold ClassList.remove at 2; simpl; rewrite String.eqb_refl.
  apply app_nil_r.
Qed.

(** showFieldError then clearFieldError (the next input event) leaves the
    field as clearFieldError alone would; a field that had no error
    markers gets back exactly its earlier state. *)
Theorem clear_after_show (f : field) (m : string) :
  clearFieldError (showFieldError f m) = clearFieldError f
  /\ (ClassList.contains FORM_ERROR f.(classes) = false -> f.(aria_invalid) = None ->
      f.(error_node) = None -> clearFieldError (showFieldError f m) = f).
Proof.
  unfold clearFieldError, showFieldError, with_markers; simpl.
  rewrite remove_add; split; [reflexivity|].
  intros Hc Ha He; destruct f as [v t r cl ai en]; simpl in *; subst.
  rewrite remove_not_contained by exact Hc; reflexivity.
Qed.

Lemma clear_after_show_witness :
  clearFieldError (showFieldError (mkField "x" "email" true ["input"] None None) MSG_EMAIL)
  = mkField "x" "email" true ["input"] None None.
Proof. apply (proj2 (clear_after_show _ _)); reflexivity. Defined.

Lemma ltrim_empty (s : string) : ltrim s = EmptyString -> all_chars is_ws s = true.
Proof.
  induction s as [|c r IH]; [reflexivity|].
  simpl; destruct (is_ws c); simpl; [exact IH | discriminate].
Qed.

Lemma rtrim_empty (s : string) : rtrim s = EmptyString -> all_chars is_ws s = true.
Proof.
  induction s as [|c r IH]; [reflexivity|].
  rewrite rtrim_cons; simpl; destruct (rtrim r) eqn:E.
  - destruct (is_ws c); [intros _; exact (IH eq_refl) | discriminate].
  - discriminate.
Qed.

Lemma ltrim_all_ws (s : string) : all_chars is_ws (ltrim s) = true -> all_chars is_ws s = true.
Proof.
  induction s as [|c r IH]; [reflexivity|].
  simpl; destruct (is_ws c) eqn:W; intros H; [exact (IH H)|].
  simpl in H; rewrite W in H; discriminate H.
Qed.

Lemma trim_empty_iff (s : string) : trim s = EmptyString <-> all_chars is_ws s = true.
Proof.
  split; [|apply trim_all_ws].
  unfold trim; intros H; apply ltrim_all_ws, rtrim_empty, H.
Qed.

(** A required field gets the required-error message exactly when its
    value is empty or made only of whitespace. *)
Theorem required_error_iff_blank (f : field) (Hr : f.(required) = true) :
  error_node (snd (validateField f)) = Some MSG_REQUIRED <-> all_chars is_ws f.(value) = true.
Proof.
  rewrite <- trim_empty_iff; unfold validateField.
  change (required (clearFieldError f)) with (required f); rewrite Hr; simpl.
  destruct (trim (value f)) as [|c r] eqn:E; simpl; [split; reflexivity|].
  split; [|discriminate]; intros H.
  destruct (_ && _ && _); [discriminate H|].
  destruct (_ && _ && _); discriminate H.
Qed.

Lemma required_error_iff_blank_witness :
  error_node (snd (validateField (mkField "   " "text" true [] None None))) = Some MSG_REQUIRED.
Proof. apply (required_error_iff_blank (mkField "   " "text" true [] None None) eq_refl); reflexivity. Defined.

End FormProps.

Module EmailProps.
Import JsString Form.

Lemma all_chars_app (p : ascii -> bool) (x y : string) :
  all_chars p (x ++ y) = all_chars p x && all_chars p y.
Proof.
  induction x as [|c r IH]; [reflexivity|]; simpl; rewrite IH; apply andb_assoc.
Qed.

Lemma email_local_app (acc : bool) (a d : string) :
  all_chars not_ws_at a = true ->
  email_local acc (a ++ String "@" d) = (acc || negb (is_empty a)) && domain_ok d.
Proof.
  revert acc; induction a as [|x r IH]; intros acc H.
  - simpl; rewrite orb_false_r; reflexivity.
  - simpl in H |- *; apply andb_true_iff in H as [Hx Hr].
    unfold not_ws_at in Hx; apply andb_true_iff in Hx as [Hw Ha].
    apply negb_true_iff in Ha; rewrite Ha, Hw; simpl.
    rewrite (IH true Hr); rewrite orb_true_r; reflexivity.
Qed.

Lemma dot_before_last_app (p q : string) :
  q <> EmptyString -> dot_before_last (p ++ String "." q) = true.
Proof.
  intros Hq; induction p as [|x r IH]; simpl.
  - destruct q; [contradiction | reflexivity].
  - rewrite IH; apply orb_true_r.
Qed.

Lemma dot_before_last_split (r : string) :
  dot_before_last r = true ->
  exists p q, r = p ++ String "." q /\ q <> EmptyString.
Proof.
  induction r as [|c r IH]; [discriminate|].
  simpl; intros H; apply orb_true_iff in H as [H|H].
  - apply andb_true_iff in H as [Hc Hr]; apply Ascii.eqb_eq in Hc; subst.
    exists EmptyString, r; split; [reflexivity|].
    destruct r; [discriminate | discriminate].
  - destruct (IH H) as [p [q [E Hq]]]; exists (String c p), q; subst; split; [reflexivity | exact Hq].
Qed.

Lemma email_local_split (acc : bool) (s : string) :
  email_local acc s = true ->
  exists a d, s = a ++ String "@" d /\ all_chars not_ws_at a = true
              /\ (acc = true \/ a <> EmptyString) /\ domain_ok d = true.
Proof.
  revert acc; induction s as [|x r IH]; intros acc H; [discriminate|].
  simpl in H; destruct (Ascii.eqb x "@") eqn:Ex.
  - apply Ascii.eqb_eq in Ex; subst; apply andb_true_iff in H as [Ha Hd].
    exists EmptyString, r; repeat split; auto.
  - apply andb_true_iff in H as [Hw Hr].
    destruct (IH true Hr) as [a [d [E [Ha [_ Hd]]]]].
    exists (String x a), d; subst; split; [reflexivity|].
    split; [|split; [right; discriminate | exact Hd]].
    simpl; unfold not_ws_at; rewrite Hw, Ex; simpl; exact Ha.
Qed.

(** The email pattern [^[^\s@]+@[^\s@]+\.[^\s@]+$] accepts exactly the
    strings [a@b.c] with [a], [b], [c] non-empty and free of whitespace
    and '@' ([b] may itself contain dots). *)
Theorem emailRegex_shape (s : string) :
  emailRegex_test s = true <->
  exists a b c, s = a ++ "@" ++ b ++ "." ++ c
    /\ a <> EmptyString /\ b <> EmptyString /\ c <> EmptyString
    /\ all_chars not_ws_at a = true /\ all_chars not_ws_at b = true
    /\ all_chars not_ws_at c = true.
Proof.
  unfold emailRegex_test; split.
  - intros H; destruct (email_local_split false s H) as [a [d [E [Ha [Hne Hd]]]]].
    destruct Hne as [Hf|Hne]; [discriminate Hf|].
    destruct d as [|x r]; [discriminate Hd|].
    simpl in Hd; apply andb_true_iff in Hd as [Hall Hdot].
    destruct (dot_before_last_split r Hdot) as [p [q [Er Hq]]].
    exists a, (String x p), q; subst.
    assert (Hpq := Hall); simpl in Hpq; apply andb_true_iff in Hpq as [Hx Hpq].
    rewrite all_chars_app in Hpq; apply andb_true_iff in Hpq as [Hp Hq'].
    simpl in Hq'.
    repeat split; try assumption; try discriminate.
    simpl; rewrite Hx, Hp; reflexivity.
  - intros [a [b [c [E [Ha [Hb [Hc [Pa [Pb Pc]]]]]]]]]; subst.
    simpl; rewrite (email_local_app false a _ Pa).
    destruct a; [contradiction|]; simpl.
    destruct b as [|x r]; [contradiction|]; simpl.
    simpl in Pb |- *; apply andb_true_iff in Pb as [Px Pr].
    rewrite all_chars_app, Px, Pr; simpl; rewrite Pc; simpl; apply dot_before_last_app, Hc.
Qed.

End EmailProps.

Module SubmitProps.
Import Page FormSubmit FormSubmitClaims.

Lemma validateField_fst (f g : Form.field) :
  Form.value f = Form.value g -> Form.ftype f = Form.ftype g -> Form.required f = Form.required g ->
  fst (Form.validateField f) = fst (Form.validateField g).
Proof.
  destruct f, g; simpl; intros -> -> ->; unfold Form.validateField; simpl.
  destruct (_ && _); [reflexivity|].
  destruct (_ && _ && _); [reflexivity|].
  destruct (_ && _ && _); reflexivity.
Qed.

Lemma validateField_keeps_kind (f : Form.field) :
  Form.value (snd (Form.validateField f)) = Form.value f
  /\ Form.ftype (snd (Form.validateField f)) = Form.ftype f
  /\ Form.required (snd (Form.validateField f)) = Form.required f.
Proof.
  destruct (validateField_cases f) as [E|[m E]]; rewrite E; repeat split.
Qed.

Lemma validateField_revalidate (f : Form.field) :
  fst (Form.validateField (snd (Form.validateField f))) = fst (Form.validateField f).
Proof.
  destruct (validateField_keeps_kind f) as [H1 [H2 H3]]; apply validateField_fst; assumption.
Qed.

Lemma aria_iff_invalid (f : Form.field) :
  Form.aria_invalid (snd (Form.validateField f)) = Some "true"
  <-> fst (Form.validateField f) = false.
Proof.
  destruct (validateField_cases f) as [E|[m E]]; rewrite E; simpl; split;
    intros H; try discriminate H; reflexivity.
Qed.

(** validateForm validates every field, not only up to the first
    failure: the form is valid exactly when all fields are, every field
    keeps its value and default, and every invalid field (and only those)
    ends with [aria-invalid="true"]. *)
Theorem validateForm_marks_every_field (w : world) :
  snd (validateForm w) = inl (all_valid w.(fields))
  /\ Forall2 (fun fd fd' =>
        snd fd' = snd fd /\ Form.value (fst fd') = Form.value (fst fd)
        /\ (Form.aria_invalid (fst fd') = Some "true" <-> fst (Form.validateField (fst fd)) = false))
       w.(fields) (fields (fst (validateForm w))).
Proof.
  rewrite validateForm_result; simpl; split; [reflexivity|].
  induction (fields w) as [|fd r IH]; simpl; constructor; [|exact IH].
  split; [reflexivity|]; split; [apply validateField_keeps_value | apply aria_iff_invalid].
Qed.

Lemma all_valid_revalidate (fs : list (Form.field * string)) :
  all_valid (map (fun fd => (snd (Form.validateField (fst fd)), snd fd)) fs) = all_valid fs.
Proof.
  unfold all_valid; induction fs as [|fd r IH]; [reflexivity|].
  simpl; rewrite validateField_revalidate, IH; reflexivity.
Qed.

(** Two successful submissions, the second one later than the first but
    less than 5000 ms after it (the page starting with no banner and no
    pending timer): the second one
    reuses the banner of the first, so the first timer removes it 5000 ms
    after the FIRST submission (less than 5000 ms after the second), resets
    the form, and a second reset is still pending for 5000 ms after the
    second submission. *)
Definition revalidated (fs : list (Form.field * string)) : list (Form.field * string) :=
  map (fun fd => (snd (Form.validateField (fst fd)), snd fd)) fs.

Definition success_banner (w : world) : banner_node :=
  match banner w with Some b => b | None => mkBanner (next_node w) (Some "status") end.

(** The projections of the world after a valid submission. *)
Lemma submit_valid (w : world) (Hv : all_valid w.(fields) = true) :
  let w1 := fst (handleFormSubmit w) in
  fields w1 = revalidated (fields w) /\ now w1 = now w
  /\ banner w1 = Some (success_banner w)
  /\ timers w1 = (timers w ++ [((now w + SUCCESS_DELAY)%Z, bid (success_banner w))])%list.
Proof.
  rewrite (handleFormSubmit_result w), Hv; unfold showFormSuccess, success_banner; simpl.
  destruct (banner w); simpl; repeat split.
Qed.

(** Running the clock to [t] when no timer is due yet. *)
Lemma advance_none_due (t : Z) (w : world)
  (H : Forall (fun p => (t < fst p)%Z) (timers w)) :
  let w' := advance t w in
  fields w' = fields w /\ banner w' = banner w /\ timers w' = timers w /\ now w' = t
  /\ next_node w' = next_node w.
Proof.
  unfold advance.
  assert (E : fire_due t (timers w) w = (w, timers w)).
  { induction H as [|[d b] r Hd Hr IH]; [reflexivity|].
    simpl in Hd |- *; replace (Z.leb d t) with false by (symmetry; apply Z.leb_gt; lia).
    rewrite IH; reflexivity. }
  rewrite E; repeat split.
Qed.

(** Two successful submissions, the second one later than the first but
    less than 5000 ms after it (the page starting with no banner and no
    pending timer): the second one
    reuses the banner of the first, so the first timer removes it 5000 ms
    after the FIRST submission (less than 5000 ms after the second), resets
    the form, and a second reset is still pending for 5000 ms after the
    second submission. *)
Theorem resubmit_banner_cut_short (w : world) (t2 : Z)
  (Hv : all_valid w.(fields) = true) (Hb : banner w = None) (Ht : timers w = [])
  (H2 : (now w < t2 < now w + SUCCESS_DELAY)%Z) :
  let w1 := advance t2 (fst (handleFormSubmit w)) in
  let w2 := fst (handleFormSubmit w1) in
  let w3 := advance (now w + SUCCESS_DELAY) w2 in
  banner w2 = Some (mkBanner (next_node w) (Some "status"))
  /\ banner w3 = None /\ values w3 = defaults w
  /\ timers w3 = [((t2 + SUCCESS_DELAY)%Z, next_node w)].
Proof.
  intros w1 w2 w3.
  destruct (submit_valid w Hv) as [F1 [N1 [B1 T1]]].
  unfold success_banner in B1, T1; rewrite Hb in B1, T1; rewrite Ht in T1; simpl in T1.
  destruct (advance_none_due t2 (fst (handleFormSubmit w))) as [F1' [B1' [T1' [N1' _]]]].
  { rewrite T1; constructor; [simpl; lia | constructor]. }
  fold w1 in F1', B1', T1', N1'.
  assert (Hv1 : all_valid (fields w1) = true).
  { rewrite F1', F1; unfold revalidated; rewrite all_valid_revalidate; exact Hv. }
  destruct (submit_valid w1 Hv1) as [F2 [N2 [B2 T2]]]; fold w2 in F2, N2, B2, T2.
  unfold success_banner in B2, T2; rewrite B1', B1 in B2, T2.
  rewrite T1', T1, N1' in T2; simpl in T2.
  split; [exact B2|].
  unfold w3, advance; rewrite T2; simpl.
  rewrite Z.leb_refl.
  replace (Z.leb (t2 + SUCCESS_DELAY) (now w + SUCCESS_DELAY)) with false
    by (symmetry; apply Z.leb_gt; lia).
  simpl; rewrite B2; simpl; rewrite Nat.eqb_refl.
  split; [reflexivity|]; split; [|reflexivity].
  unfold values, defaults; simpl; rewrite F2, F1', F1; unfold revalidated.
  rewrite !map_map; apply map_ext; intros; reflexivity.
Qed.

Lemma resubmit_banner_cut_short_witness :
  let w := sample_world (sample_fields "Ada" "ada@example.com" "") in
  banner (advance (now w + SUCCESS_DELAY)
            (fst (handleFormSubmit (advance 4000 (fst (handleFormSubmit w)))))) = None.
Proof.
  apply (resubmit_banner_cut_short (sample_world (sample_fields "Ada" "ada@example.com" "")) 4000);
    [vm_compute; reflexivity | reflexivity | reflexivity | unfold SUCCESS_DELAY; simpl; lia].
Defined.

End SubmitProps.

(** ** Smooth scroll on a resolved link *)
Module NavProps.
Import Page.
Open Scope page_scope.

(** A link whose fragment resolves: the default navigation is prevented,
    one scroll is issued to the target's top plus the current offset
    minus the header height (80 when there is no header), the fragment is
    pushed to the history when pushState exists, the mobile menu is
    closed, the target gets the focus, and nothing is logged. *)
Theorem handleSmoothScroll_resolved_effects (d : doc) (t id : string) (top : Z) (w : world)
  (Hh : starts_with_hash t = true) (Hq : query d t = QElem id top) :
  let w' := fst (handleSmoothScroll d (Some t) w) in
  prevented w' = true
  /\ scroll_calls w' = (scroll_calls w ++ [(top + pageYOffset d - getScrollOffset d)%Z])%list
  /\ pushed w' = (pushed w ++ (if has_pushState d then [t] else []))%list
  /\ menu w' = Menu.closeMobileMenu (menu w)
  /\ focused w' = Some id
  /\ console w' = console w.
Proof.
  unfold handleSmoothScroll, wrap; rewrite Hh; simpl.
  unfold bind, querySelector; rewrite Hq; simpl.
  destruct (has_pushState d); simpl; rewrite ?app_nil_r; repeat split.
Qed.

Lemma handleSmoothScroll_resolved_effects_witness :
  scroll_calls (fst (handleSmoothScroll SmoothScrollClaims.sample_doc (Some "#services")
                       SmoothScrollClaims.sample_world)) = [568%Z].
Proof.
  destruct (handleSmoothScroll_resolved_effects SmoothScrollClaims.sample_doc "#services"
              "services" 640 SmoothScrollClaims.sample_world eq_refl eq_refl)
    as [_ [H _]].
  rewrite H; reflexivity.
Defined.

End NavProps.

(** ** Scroll-to-top initialisation *)
Module ScrollProps.
Import ScrollTop.

(** The DOM part of [initScrollToTop]: reuse the [.scroll-to-top] button
    or create one ([createScrollToTopButton], class [scroll-to-top]), then
    the initial [handleScroll()]. *)
Definition initScrollToTop (s : scroll_state) : scroll_state :=
  let s := match s.(scroll_button) with
           | Some _ => s
           | None => mkScroll s.(pageYOffset) s.(scrollTop) (Some ["scroll-to-top"])
           end in
  handleScroll s.

Lemma remove_idem (c : string) (l : list string) :
  ClassList.remove c (ClassList.remove c l) = ClassList.remove c l.
Proof.
  induction l as [|x r IH]; [reflexivity|].
  unfold ClassList.remove in *; simpl.
  destruct (String.eqb x c) eqn:E; simpl; [exact IH|].
  rewrite E, IH; reflexivity.
Qed.

Lemma add_idem (c : string) (l : list string) :
  ClassList.add c (ClassList.add c l) = ClassList.add c l.
Proof.
  unfold ClassList.add at 1; rewrite ClassListFacts.contains_add; reflexivity.
Qed.

(** handleScroll is idempotent (a repeated scroll event at the same
    offset changes nothing more), and does nothing when the page has no
    scroll-to-top button. *)
Theorem handleScroll_idempotent (s : scroll_state) :
  handleScroll (handleScroll s) = handleScroll s
  /\ (s.(scroll_button) = None -> handleScroll s = s).
Proof.
  split; [|intros H; unfold handleScroll; rewrite H; reflexivity].
  destruct s as [p t [cl|]]; [|reflexivity].
  unfold handleScroll at 2 3; simpl.
  unfold handleScroll, scrollPosition; simpl.
  destruct (Z.gtb (if Z.eqb p 0 then t else p) SCROLL_TO_TOP_THRESHOLD);
    [rewrite add_idem | rewrite remove_idem]; reflexivity.
Qed.

Lemma handleScroll_idempotent_witness :
  handleScroll (mkScroll 0 0 None) = mkScroll 0 0 None.
Proof. apply (proj2 (handleScroll_idempotent (mkScroll 0 0 None))); reflexivity. Defined.

(** initScrollToTop leaves the page with a scroll-to-top button (the one
    in the markup, or a created one with class [scroll-to-top]) whose
    [visible] class already matches the scroll position at load (above
    300), and whose other classes are those it had before. *)
Theorem initScrollToTop_button (p t : Z) (b : option (list string)) :
  match scroll_button (initScrollToTop (mkScroll p t b)) with
  | Some cl' =>
      (ClassList.contains SCROLL_TO_TOP_VISIBLE cl' = true
         <-> (scrollPosition (mkScroll p t b) > 300)%Z)
      /\ (forall c, c <> SCROLL_TO_TOP_VISIBLE ->
            In c cl' <-> In c (match b with Some cl => cl | None => ["scroll-to-top"] end))
  | None => False
  end.
Proof.
  unfold initScrollToTop.
  set (cl := match b with Some cl => cl | None => ["scroll-to-top"] end).
  replace (match scroll_button (mkScroll p t b) with
           | Some _ => mkScroll p t b
           | None => mkScroll (pageYOffset (mkScroll p t b)) (scrollTop (mkScroll p t b))
                       (Some ["scroll-to-top"])
           end) with (mkScroll p t (Some cl)) by (subst cl; destruct b; reflexivity).
  unfold handleScroll; simpl.
  replace (scrollPosition (mkScroll p t (Some cl))) with (scrollPosition (mkScroll p t b))
    by reflexivity.
  unfold SCROLL_TO_TOP_THRESHOLD; destruct (Z.gtb (scrollPosition (mkScroll p t b)) 300) eqn:E.
  - rewrite ClassListFacts.contains_add; apply Z.gtb_lt in E; split; [split; intros; [lia | reflexivity]|].
    intros c Hc; unfold ClassList.add; destruct (ClassList.contains _ cl); [reflexivity|].
    rewrite in_app_iff; simpl; split; [intros [H|[H|[]]]; [exact H | congruence] | intros H; left; exact H].
  - rewrite ClassListFacts.contains_remove.
    rewrite Z.gtb_ltb, Z.ltb_ge in E; split; [split; intros H; [discriminate H | lia]|].
    intros c Hc; unfold ClassList.remove; rewrite filter_In.
    split; [intros [H _]; exact H|].
    intros H; split; [exact H|]; apply negb_true_iff, String.eqb_neq; exact Hc.
Qed.

End ScrollProps.

(** ** Lazy loading: repeated loads, the observer callback, the two paths *)
Module LazyProps.
Import LazyImage.

Lemma loadImage_loaded_fixed (img : image) :
  ClassList.contains LAZY_LOADED (iclasses img) = true -> loadImage img = img.
Proof. intros H; unfold loadImage; rewrite H; reflexivity. Qed.

Lemma loadImage_cases (img : image) :
  loadImage img = img
  \/ ClassList.contains LAZY_LOADED (iclasses (loadImage img)) = true
  \/ (complete img = false /\ ClassList.contains LAZY_LOADED (iclasses img) = false
      /\ (exists s, src img = Some s /\ s <> EmptyString)
      /\ loadImage img = mkImage (iclasses img) (src img) false
                                 (listeners img ++ ["load"; "error"])%list).
Proof.
  unfold loadImage.
  destruct (ClassList.contains LAZY_LOADED (iclasses img)) eqn:E; [left; reflexivity|].
  destruct (src img) as [[|c r]|] eqn:Es; try (left; reflexivity).
  destruct (complete img) eqn:Ec.
  - right; left; simpl; apply ClassListFacts.contains_add.
  - right; right; split; [reflexivity|]; split; [reflexivity|]; split;
      [exists (String c r); split; [reflexivity | discriminate] | reflexivity].
Qed.

(** On a complete image loadImage is idempotent: once it has run, a
    second run (for instance from a second intersection) changes nothing,
    and in particular adds no further listeners. *)
Lemma loadImage_twice (img : image) :
  complete img = true -> loadImage (loadImage img) = loadImage img.
Proof.
  intros Hc; destruct (loadImage_cases img) as [H | [H | [H _]]].
  - rewrite H; exact H.
  - apply loadImage_loaded_fixed; exact H.
  - congruence.
Qed.

Theorem loadImage_idempotent_complete (img : image) (Hc : complete img = true) :
  loadImage (loadImage img) = loadImage img.
Proof. apply loadImage_twice; exact Hc. Qed.

Lemma loadImage_idempotent_complete_witness :
  loadImage (loadImage (mkImage [] (Some "a.jpg") true []))
  = loadImage (mkImage [] (Some "a.jpg") true []).
Proof. apply loadImage_idempotent_complete; reflexivity. Defined.

(** On an image that is not complete yet, not loaded and has a non-empty
    [src], every call of loadImage adds one more [load] and one more
    [error] listener and leaves the classes alone: [n] calls leave [n]
    listener pairs. *)
Theorem loadImage_incomplete_stacks (n : nat) (img : image) (s : string)
  (Hc : complete img = false) (Hl : ClassList.contains LAZY_LOADED (iclasses img) = false)
  (Hs : src img = Some s) (Hne : s <> EmptyString) :
  iclasses (Nat.iter n loadImage img) = iclasses img
  /\ listeners (Nat.iter n loadImage img)
     = (listeners img ++ concat (repeat ["load"; "error"] n))%list.
Proof.
  assert (Step : forall x, complete x = false -> ClassList.contains LAZY_LOADED (iclasses x) = false ->
                 src x = Some s -> loadImage x = mkImage (iclasses x) (src x) false
                                                   (listeners x ++ ["load"; "error"])%list).
  { intros x H1 H2 H3; unfold loadImage; rewrite H2, H3.
    destruct s as [|c r]; [contradiction|]; rewrite H1; reflexivity. }
  assert (Inv : forall k, complete (Nat.iter k loadImage img) = false
                  /\ src (Nat.iter k loadImage img) = Some s
                  /\ iclasses (Nat.iter k loadImage img) = iclasses img
                  /\ listeners (Nat.iter k loadImage img)
                     = (listeners img ++ concat (repeat ["load"; "error"] k))%list).
  { induction k as [|k [IH1 [IH2 [IH3 IH4]]]].
    - simpl; rewrite app_nil_r; auto.
    - simpl Nat.iter; rewrite Step; [|exact IH1 | rewrite IH3; exact Hl | exact IH2].
      simpl; rewrite IH2, IH3, IH4; repeat split.
      rewrite <- app_assoc; f_equal.
      clear; induction k as [|k IH]; [reflexivity|].
      simpl; rewrite IH; reflexivity. }
  destruct (Inv n) as [_ [_ [H1 H2]]]; split; assumption.
Qed.

Lemma loadImage_incomplete_stacks_witness :
  listeners (Nat.iter 2 loadImage (mkImage [] (Some "a.jpg") false []))
  = ["load"; "error"; "load"; "error"].
Proof.
  destruct (loadImage_incomplete_stacks 2 (mkImage [] (Some "a.jpg") false []) "a.jpg"
              eq_refl eq_refl eq_refl ltac:(discriminate)) as [_ H].
  rewrite H; reflexivity.
Defined.

(** The lazy images of the page, in [querySelectorAll] order, and the
    indices of the images the IntersectionObserver watches. *)
Record lazy_page := mkLazy { images : list image; observed : list nat }.

(** An [IntersectionObserverEntry]: its target (an index into the page's
    images) and [isIntersecting]. *)
Record entry := mkEntry { target : nat; isIntersecting : bool }.

Fixpoint update_nth {A} (f : A -> A) (i : nat) (l : list A) : list A :=
  match l, i with
  | [], _ => []
  | x :: r, O => f x :: r
  | x :: r, S i => x :: update_nth f i r
  end.

(** [observer.unobserve(image)] *)
Definition unobserve (i : nat) (obs : list nat) : list nat :=
  filter (fun j => negb (Nat.eqb j i)) obs.

(** [handleImageIntersection(entries, observer)] *)
Definition handleImageIntersection (entries : list entry) (pg : lazy_page) : lazy_page :=
  fold_left (fun pg e =>
               if isIntersecting e
               then mkLazy (update_nth loadImage (target e) (images pg))
                           (unobserve (target e) (observed pg))
               else pg) entries pg.

(** [initLazyLoading]; [io] tells whether ['IntersectionObserver' in
    window]. *)
Definition initLazyLoading (io : bool) (imgs : list image) : lazy_page :=
  match imgs with
  | [] => mkLazy [] []
  | _ => if io then mkLazy imgs (seq 0 (length imgs))
         else mkLazy (map loadImage imgs) []
  end.

(** How many intersecting entries of a batch target image [j]. *)
Definition hits (j : nat) (es : list entry) : nat :=
  length (filter (fun e => isIntersecting e && Nat.eqb (target e) j) es).

Lemma nth_error_update_nth {A} (f : A -> A) (i j : nat) (l : list A) :
  nth_error (update_nth f i l) j
  = if Nat.eqb i j then option_map f (nth_error l j) else nth_error l j.
Proof.
  revert i j; induction l as [|x r IH]; intros i j.
  - destruct i, j; simpl; try destruct (Nat.eqb _ _); reflexivity.
  - destruct i as [|i], j as [|j]; simpl; [reflexivity | reflexivity | reflexivity | apply IH].
Qed.

Lemma handle_nth (es : list entry) (pg : lazy_page) (j : nat) :
  nth_error (images (handleImageIntersection es pg)) j
  = option_map (Nat.iter (hits j es) loadImage) (nth_error (images pg) j).
Proof.
  unfold handleImageIntersection, hits; revert pg.
  induction es as [|e r IH]; intros pg; simpl.
  - destruct (nth_error (images pg) j); reflexivity.
  - rewrite IH; destruct (isIntersecting e); simpl; [|reflexivity].
    rewrite nth_error_update_nth, (Nat.eqb_sym (target e) j).
    destruct (Nat.eqb j (target e)); simpl; [|reflexivity].
    destruct (nth_error (images pg) j); simpl; [|reflexivity].
    rewrite Nat.iter_swap; reflexivity.
Qed.

Lemma handle_observed (es : list entry) (pg : lazy_page) (j : nat) :
  In j (observed (handleImageIntersection es pg)) <-> In j (observed pg) /\ hits j es = 0.
Proof.
  unfold handleImageIntersection, hits; revert pg.
  induction es as [|e r IH]; intros pg; simpl.
  - tauto.
  - rewrite IH; destruct (isIntersecting e); simpl; [|tauto].
    unfold unobserve; rewrite filter_In, (Nat.eqb_sym (target e) j).
    destruct (Nat.eqb j (target e)) eqn:E; simpl; [split; [intros [[_ H] _]; discriminate H | intros [_ H]; discriminate H]|].
    tauto.
Qed.

Lemma handle_length (es : list entry) (pg : lazy_page) :
  length (images (handleImageIntersection es pg)) = length (images pg).
Proof.
  unfold handleImageIntersection; revert pg.
  induction es as [|e r IH]; intros pg; simpl; [reflexivity|].
  rewrite IH; destruct (isIntersecting e); simpl; [|reflexivity].
  clear; generalize (target e); induction (images pg) as [|x l IH]; intros [|i]; simpl; auto.
Qed.

Lemma hits_seq (j s n : nat) :
  hits j (map (fun i => mkEntry i true) (seq s n))
  = if Nat.leb s j && Nat.ltb j (s + n) then 1 else 0.
Proof.
  unfold hits; revert s; induction n as [|n IH]; intros s; simpl.
  - destruct (Nat.leb_spec s j), (Nat.ltb_spec j (s + 0)); simpl; lia.
  - destruct (Nat.eqb_spec s j); simpl; rewrite IH;
    destruct (Nat.leb_spec (S s) j), (Nat.ltb_spec j (S s + n)),
             (Nat.leb_spec s j), (Nat.ltb_spec j (s + S n)); simpl; lia.
Qed.

(** handleImageIntersection runs loadImage on image [j] once per
    intersecting entry that targets it (entries that are not
    intersecting are ignored) and stops watching exactly the images some
    intersecting entry targeted. *)
Theorem handleImageIntersection_effects (es : list entry) (pg : lazy_page) (j : nat) :
  nth_error (images (handleImageIntersection es pg)) j
  = option_map (Nat.iter (hits j es) loadImage) (nth_error (images pg) j)
  /\ (In j (observed (handleImageIntersection es pg)) <-> In j (observed pg) /\ hits j es = 0).
Proof. split; [apply handle_nth | apply handle_observed]. Qed.

Lemma iter_loadImage_complete (k : nat) (img : image) :
  complete img = true -> Nat.iter (S k) loadImage img = loadImage img.
Proof.
  intros Hc; induction k as [|k IH]; [reflexivity|].
  change (Nat.iter (S (S k)) loadImage img) with (loadImage (Nat.iter (S k) loadImage img)).
  rewrite IH; apply loadImage_twice, Hc.
Qed.

Lemma handle_batches (batches : list (list entry)) (pg : lazy_page) :
  fold_left (fun pg es => handleImageIntersection es pg) batches pg
  = handleImageIntersection (concat batches) pg.
Proof.
  revert pg; induction batches as [|es r IH]; intros pg; [reflexivity|].
  simpl; rewrite IH; unfold handleImageIntersection; rewrite fold_left_app; reflexivity.
Qed.

(** With an IntersectionObserver, initLazyLoading watches every lazy image
    and loads none; without one, it loads every image at once.  Over any
    sequence of observer batches, image [j] has gone through loadImage
    once per intersecting report of it.  Once every image has been
    reported intersecting at least once, nothing is watched any more, and
    when every image is complete the observer path has reached exactly
    the state of the fallback path (an incomplete image reported several
    times carries several listener pairs instead). *)
Theorem initLazyLoading_paths (imgs : list image) (batches : list (list entry)) :
  let pg := initLazyLoading true imgs in
  let pg' := fold_left (fun pg es => handleImageIntersection es pg) batches pg in
  images pg = imgs /\ (forall j, In j (observed pg) <-> j < length imgs)
  /\ initLazyLoading false imgs = mkLazy (map loadImage imgs) []
  /\ (forall j, nth_error (images pg') j
                = option_map (Nat.iter (hits j (concat batches)) loadImage) (nth_error imgs j))
  /\ ((forall j, j < length imgs -> hits j (concat batches) > 0) ->
      observed pg' = []
      /\ ((forall img, In img imgs -> complete img = true) -> pg' = initLazyLoading false imgs)).
Proof.
  intros pg pg'.
  set (es := concat batches).
  assert (Hpg : pg = mkLazy imgs (seq 0 (length imgs))) by (subst pg; destruct imgs; reflexivity).
  assert (Hpg' : pg' = handleImageIntersection es pg) by apply handle_batches.
  assert (Hn : forall j, nth_error (images pg') j
                         = option_map (Nat.iter (hits j es) loadImage) (nth_error imgs j)).
  { intros j; rewrite Hpg', handle_nth, Hpg; reflexivity. }
  split; [rewrite Hpg; reflexivity|]; split.
  { intros j; rewrite Hpg; simpl; rewrite in_seq; lia. }
  split; [destruct imgs; reflexivity|].
  split; [exact Hn|].
  intros Hall.
  assert (Ho : observed pg' = []).
  { destruct (observed pg') as [|j ro] eqn:Eo; [reflexivity|].
    assert (Hin : In j (observed pg')) by (rewrite Eo; left; reflexivity).
    rewrite Hpg', handle_observed, Hpg in Hin; simpl in Hin; rewrite in_seq in Hin.
    destruct Hin as [H1 H2]; specialize (Hall j ltac:(lia)); lia. }
  split; [exact Ho|].
  intros Hc.
  assert (Hi : images pg' = map loadImage imgs).
  { apply nth_error_ext; intros j; rewrite Hn, nth_error_map.
    destruct (nth_error imgs j) as [img|] eqn:E; [|reflexivity]; simpl.
    assert (Hj : j < length imgs) by (apply nth_error_Some; rewrite E; discriminate).
    specialize (Hall j Hj).
    destruct (hits j es) as [|k]; [lia|].
    rewrite iter_loadImage_complete; [reflexivity|].
    apply Hc, (nth_error_In _ _ E). }
  destruct pg' as [ri ro]; simpl in Ho, Hi; subst; destruct imgs; reflexivity.
Qed.

Lemma initLazyLoading_paths_witness :
  fold_left (fun pg es => handleImageIntersection es pg) [[mkEntry 0 true]]
    (initLazyLoading true [mkImage [] (Some "a.jpg") true []])
  = initLazyLoading false [mkImage [] (Some "a.jpg") true []].
Proof.
  destruct (initLazyLoading_paths [mkImage [] (Some "a.jpg") true []] [[mkEntry 0 true]])
    as [_ [_ [_ [_ H]]]].
  apply (proj2 (H ltac:(intros j Hj; destruct j; [vm_compute; lia | simpl in Hj; lia]))).
  intros img [<-|[]]; reflexivity.
Defined.

End LazyProps.

(** ** Keyboard accessibility initialisation *)
Module KeyboardProps.

(** What [initKeyboardAccessibility] touches: the listeners registered on
    the [.skip-link] element (if any), as (event type, handler) pairs, and
    the [tabindex] attribute of every [.service-card, .contact-item]
    element. *)
Record kb_page := mkKb { skip_link : option (list (string * string)); cards : list (option string) }.

(** [addEventListener(type, listener)]: registering the same listener
    for the same type again is ignored. *)
Definition addEventListener (l : string * string) (ls : list (string * string))
  : list (string * string) :=
  if existsb (fun x => String.eqb (fst x) (fst l) && String.eqb (snd x) (snd l)) ls
  then ls else (ls ++ [l])%list.

(** [initKeyboardAccessibility] (nothing in its body throws on this
    model, so the try/catch is not exercised). *)
Definition initKeyboardAccessibility (pg : kb_page) : kb_page :=
  mkKb (option_map (addEventListener ("click", "handleSkipLink")) pg.(skip_link))
       (map (fun t => match t with None => Some "0" | Some v => Some v end) pg.(cards)).

Lemma addEventListener_in (l : string * string) (ls : list (string * string)) :
  In l (addEventListener l ls).
Proof.
  unfold addEventListener.
  destruct (existsb _ ls) eqn:E.
  - apply existsb_exists in E as [[a b] [Hx Hq]]; apply andb_true_iff in Hq as [H1 H2].
    apply String.eqb_eq in H1, H2; destruct l; simpl in *; subst; exact Hx.
  - apply in_or_app; right; left; reflexivity.
Qed.

Lemma addEventListener_idem (l : string * string) (ls : list (string * string)) :
  addEventListener l (addEventListener l ls) = addEventListener l ls.
Proof.
  unfold addEventListener at 1.
  replace (existsb _ (addEventListener l ls)) with true; [reflexivity|].
  symmetry; apply existsb_exists; exists l; split; [apply addEventListener_in|].
  rewrite !String.eqb_refl; reflexivity.
Qed.

(** After initKeyboardAccessibility every card is focusable: a card
    without [tabindex] gets ["0"], one with a [tabindex] keeps it; the
    skip link, if present, has handleSkipLink as a click listener.  A
    second run changes nothing (the same listener is not added twice). *)
Theorem initKeyboardAccessibility_cards (pg : kb_page) (i : nat) :
  nth_error (cards (initKeyboardAccessibility pg)) i
  = option_map (fun t => Some (match t with None => "0" | Some v => v end)) (nth_error (cards pg) i)
  /\ (forall ls, skip_link (initKeyboardAccessibility pg) = Some ls -> In ("click", "handleSkipLink") ls)
  /\ initKeyboardAccessibility (initKeyboardAccessibility pg) = initKeyboardAccessibility pg.
Proof.
  destruct pg as [sk cs]; unfold initKeyboardAccessibility; simpl; split; [|split].
  - rewrite nth_error_map; destruct (nth_error cs i) as [[v|]|]; reflexivity.
  - destruct sk as [ls|]; simpl; intros ls' H; [|discriminate H].
    injection H as <-; apply addEventListener_in.
  - f_equal.
    + destruct sk as [ls|]; simpl; [rewrite addEventListener_idem|]; reflexivity.
    + rewrite map_map; apply map_ext; intros [v|]; reflexivity.
Qed.

End KeyboardProps.

(** ** debounce *)
Module Debounce.

Section Debounce.

(** The arguments of one call of the debounced function. *)
Variable A : Type.

(** The [wait] argument; [setTimeout] treats a negative delay as 0. *)
Variable wait : Z.

Definition delay : Z := Z.max 0 wait.

(** The closure's [timeoutId] (the pending timer: its due time and the
    arguments it will pass) and the calls of [func] made so far (time,
    arguments). *)
Record deb := mkDeb { pending : option (Z * A); fired : list (Z * A) }.

(** The clock reaching [t]: a pending timer due by then runs, resetting
    [timeoutId] to null and calling [func]. *)
Definition fire_until (t : Z) (s : deb) : deb :=
  match s.(pending) with
  | Some (d, a) => if Z.leb d t then mkDeb None (s.(fired) ++ [(d, a)])%list else s
  | None => s
  end.

(** A call of [debounced(...args)] at time [t]: [clearTimeout] of the
    pending timer, then a new [setTimeout] with [args]. *)
Definition debounced (t : Z) (a : A) (s : deb) : deb :=
  let s := fire_until t s in mkDeb (Some (t + delay, a)%Z) s.(fired).

Definition run (calls : list (Z * A)) (s : deb) : deb :=
  fold_left (fun s '(t, a) => debounced t a s) calls s.

(** The clock running on until every timer has fired. *)
Definition flush (s : deb) : deb :=
  match s.(pending) with
  | Some p => mkDeb None (s.(fired) ++ [p])%list
  | None => s
  end.

(** Consecutive calls closer together than the delay. *)
Fixpoint close (calls : list (Z * A)) : Prop :=
  match calls with
  | (t1, _) :: ((t2, _) :: _) as r => (t1 <= t2 < t1 + delay)%Z /\ close r
  | _ => True
  end.

(** Consecutive calls further apart than the delay. *)
Fixpoint spaced (calls : list (Z * A)) : Prop :=
  match calls with
  | (t1, _) :: ((t2, _) :: _) as r => (t1 + delay < t2)%Z /\ spaced r
  | _ => True
  end.

Lemma run_cons (t : Z) (a : A) (r : list (Z * A)) (s : deb) :
  run ((t, a) :: r) s = run r (debounced t a s).
Proof. reflexivity. Qed.

Lemma run_close (calls : list (Z * A)) (t0 : Z) (a0 : A) (t : Z) (a : A) (f : list (Z * A)) :
  close ((t0, a0) :: calls ++ [(t, a)])%list ->
  run (calls ++ [(t, a)])%list (mkDeb (Some (t0 + delay, a0))%Z f)
  = mkDeb (Some (t + delay, a))%Z f.
Proof.
  revert t0 a0; induction calls as [|[t1 a1] r IH]; intros t0 a0 H; simpl in H.
  - simpl app; rewrite run_cons; unfold debounced, fire_until; simpl.
    replace (Z.leb (t0 + delay) t) with false by (symmetry; apply Z.leb_gt; lia); reflexivity.
  - destruct H as [H1 H2].
    simpl app; rewrite run_cons; unfold debounced at 1, fire_until; simpl.
    replace (Z.leb (t0 + delay) t1) with false by (symmetry; apply Z.leb_gt; lia).
    apply IH; exact H2.
Qed.

Lemma flush_run_spaced (calls : list (Z * A)) (t0 : Z) (a0 : A) (f : list (Z * A)) :
  spaced ((t0, a0) :: calls) ->
  flush (run calls (mkDeb (Some (t0 + delay, a0))%Z f))
  = mkDeb None (f ++ (t0 + delay, a0)%Z :: map (fun '(t, a) => (t + delay, a)%Z) calls)%list.
Proof.
  revert t0 a0 f; induction calls as [|[t1 a1] r IH]; intros t0 a0 f H; simpl in H.
  - reflexivity.
  - destruct H as [H1 H2].
    rewrite run_cons; unfold debounced at 1, fire_until; simpl.
    replace (Z.leb (t0 + delay) t1) with true by (symmetry; apply Z.leb_le; lia).
    rewrite (IH t1 a1 _ H2); simpl; rewrite <- app_assoc; reflexivity.
Qed.

(** A burst of calls, each less than the delay after the previous one,
    makes the debounced function call [func] exactly once, with the
    arguments of the last call, one delay after the last call. *)
Theorem debounce_burst_fires_once (calls : list (Z * A)) (t : Z) (a : A) (f : list (Z * A))
  (Hc : close (calls ++ [(t, a)])%list) :
  run (calls ++ [(t, a)])%list (mkDeb None f) = mkDeb (Some (t + delay, a))%Z f
  /\ flush (run (calls ++ [(t, a)])%list (mkDeb None f)) = mkDeb None (f ++ [(t + delay, a)%Z])%list.
Proof.
  assert (H : run (calls ++ [(t, a)])%list (mkDeb None f) = mkDeb (Some (t + delay, a))%Z f).
  { destruct calls as [|[t0 a0] r]; [reflexivity|].
    simpl app; rewrite run_cons; unfold debounced at 1; simpl; apply run_close; exact Hc. }
  split; [exact H | rewrite H; reflexivity].
Qed.

(** Calls spaced further apart than the delay are each passed on: [func]
    runs once per call, with that call's arguments, one delay later. *)
Theorem debounce_spaced_fires_each (calls : list (Z * A)) (f : list (Z * A))
  (Hs : spaced calls) :
  flush (run calls (mkDeb None f))
  = mkDeb None (f ++ map (fun '(t, a) => (t + delay, a)%Z) calls)%list.
Proof.
  destruct calls as [|[t0 a0] r]; [simpl; rewrite app_nil_r; reflexivity|].
  rewrite run_cons; unfold debounced at 1; simpl.
  apply flush_run_spaced; exact Hs.
Qed.

End Debounce.

Lemma debounce_burst_fires_once_witness :
  flush nat (run nat 150 [(0%Z, 1); (100%Z, 2); (200%Z, 3)] (mkDeb nat None []))
  = mkDeb nat None [(350%Z, 3)].
Proof.
  destruct (debounce_burst_fires_once nat 150 [(0%Z, 1); (100%Z, 2)] 200 3 [])
    as [_ H]; [unfold delay; simpl; repeat split; lia | exact H].
Defined.

Lemma debounce_spaced_fires_each_witness :
  flush nat (run nat 150 [(0%Z, 1); (200%Z, 2)] (mkDeb nat None []))
  = mkDeb nat None [(150%Z, 1); (350%Z, 2)].
Proof.
  apply (debounce_spaced_fires_each nat 150 [(0%Z, 1); (200%Z, 2)] []).
  unfold delay; simpl; repeat split; lia.
Defined.

End Debounce.

(** ** Every event handler of the page *)
Module Handlers.
Import Page.
Open Scope page_scope.

(** The page as the handlers see it: the world of [Page], the
    scroll-to-top state, the lazy images and [#main] (if present, with
    its [tabindex] attribute). *)
Record page := mkPage {
  pw : world;
  pscroll : ScrollTop.scroll_state;
  plazy : LazyProps.lazy_page;
  pmain : option (option string)
}.

(** A handler run: the page it leaves and its outcome (normal return or
    an exception escaping to the browser). *)
Definition H := page -> page * (unit + exn).

Definition on_world (m : M unit) : H :=
  fun p => let '(w', r) := m p.(pw) in (mkPage w' p.(pscroll) p.(plazy) p.(pmain), r).

Definition set_scroll (s : ScrollTop.scroll_state) (p : page) : page :=
  mkPage p.(pw) s p.(plazy) p.(pmain).
Definition set_lazy (l : LazyProps.lazy_page) (p : page) : page :=
  mkPage p.(pw) p.(pscroll) l p.(pmain).

(** [try { body } catch (error) { logError(context, error); }] on the page. *)
Definition wrapH (context : string) (body : H) : H :=
  fun p => match body p with
           | (p', inl _) => (p', inl tt)
           | (p', inr _) => (mkPage (add_console (String.append "[Fresh & Clean Laundry] " context) p'.(pw))
                                    p'.(pscroll) p'.(plazy) p'.(pmain), inl tt)
           end.

Definition set_fields (fs : list (Form.field * string)) (w : world) : world :=
  set_form fs w.(form_classes) w.(banner) w.(next_node) w.(timers) w.

(** [toggleMobileMenu] (wrapped; its body null-checks both elements). *)
Definition toggleMobileMenu : H :=
  on_world (wrap "Mobile menu toggle" (modify (fun w => set_menu (Menu.toggleMobileMenu w.(menu)) w))).

(** [handleOutsideClick], [handleEscapeKey], [handleResize]: no
    try/catch; they only read the event and call closeMobileMenu, which
    null-checks. *)
Definition handleOutsideClick (in_nav in_toggle : bool) : H :=
  on_world (modify (fun w => set_menu (Menu.handleOutsideClick in_nav in_toggle w.(menu)) w)).
Definition handleEscapeKey (key : string) (keyCode : Z) : H :=
  on_world (modify (fun w => set_menu (Menu.handleEscapeKey key keyCode w.(menu)) w)).
Definition handleResize (innerWidth : Z) : H :=
  on_world (modify (fun w => set_menu (Menu.handleResize innerWidth w.(menu)) w)).

(** [scrollToTop] (wrapped): [window.scrollTo({top: 0})]. *)
Definition scrollToTop : H := on_world (wrap "Scroll to top" (modify (add_scroll 0))).

(** [handleScroll] (wrapped). *)
Definition handleScroll : H :=
  wrapH "Scroll handler" (fun p => (set_scroll (ScrollTop.handleScroll p.(pscroll)) p, inl tt)).

(** [handleImageIntersection] (no try/catch; loadImage inside it is
    wrapped). *)
Definition handleImageIntersection (es : list LazyProps.entry) : H :=
  fun p => (set_lazy (LazyProps.handleImageIntersection es p.(plazy)) p, inl tt).

(** The [load] listener loadImage adds on image [j]. *)
Definition imageLoad (j : nat) : H :=
  fun p => (set_lazy (LazyProps.mkLazy
              (LazyProps.update_nth (fun img => LazyImage.mkImage
                   (ClassList.add LazyImage.LAZY_LOADED (LazyImage.iclasses img))
                   (LazyImage.src img) (LazyImage.complete img) (LazyImage.listeners img))
                 j (LazyProps.images p.(plazy)))
              (LazyProps.observed p.(plazy))) p, inl tt).

(** The [error] listener loadImage adds: [logError('Image loading', ...)]. *)
Definition imageError : H :=
  on_world (logError "Image loading").

(** The blur and input listeners on input [i]: validateField and
    clearFieldError (no try/catch). *)
Definition blur (i : nat) : H :=
  on_world (modify (fun w => set_fields
    (LazyProps.update_nth (fun fd => (snd (Form.validateField (fst fd)), snd fd)) i w.(fields)) w)).
Definition input (i : nat) : H :=
  on_world (modify (fun w => set_fields
    (LazyProps.update_nth (fun fd => (Form.clearFieldError (fst fd), snd fd)) i w.(fields)) w)).

(** The success timer of showFormSuccess for banner [b] (no try/catch). *)
Definition successTimer (b : nat) : H := on_world (modify (FormSubmit.success_timeout b)).

(** [handleSkipLink] (no try/catch): preventDefault; when [#main]
    exists, set [tabindex="-1"], focus it, remove [tabindex]. *)
Definition handleSkipLink : H :=
  fun p => let w := set_prevented p.(pw) in
           match p.(pmain) with
           | Some _ => (mkPage (set_focus "main" w) p.(pscroll) p.(plazy) (Some None), inl tt)
           | None => (mkPage w p.(pscroll) p.(plazy) None, inl tt)
           end.

(** The events the script listens for, with what each handler reads. *)
Inductive event :=
| NavClick (d : doc) (href : option string)
| ToggleClick
| DocClick (in_nav in_toggle : bool)
| KeyDown (key : string) (keyCode : Z)
| Resize (innerWidth : Z)
| ScrollTopClick
| WindowScroll
| Intersect (es : list LazyProps.entry)
| ImageLoad (j : nat)
| ImageError
| Submit
| Blur (i : nat)
| Input (i : nat)
| SuccessTimer (b : nat)
| SkipClick.

Definition dispatch (e : event) : H :=
  match e with
  | NavClick d href => on_world (handleSmoothScroll d href)
  | ToggleClick => toggleMobileMenu
  | DocClick a b => handleOutsideClick a b
  | KeyDown k c => handleEscapeKey k c
  | Resize wd => handleResize wd
  | ScrollTopClick => scrollToTop
  | WindowScroll => handleScroll
  | Intersect es => handleImageIntersection es
  | ImageLoad j => imageLoad j
  | ImageError => imageError
  | Submit => on_world FormSubmit.handleFormSubmit
  | Blur i => blur i
  | Input i => input i
  | SuccessTimer b => successTimer b
  | SkipClick => handleSkipLink
  end.

Lemma on_world_ok (m : M unit) (p : page) :
  snd (m p.(pw)) = inl tt -> snd (on_world m p) = inl tt.
Proof. unfold on_world; destruct (m (pw p)) as [w' r]; simpl; auto. Qed.

Lemma wrap_snd (ctx : string) (m : M unit) (w : world) : snd (wrap ctx m w) = inl tt.
Proof. rewrite GuardClaims.wrap_result; reflexivity. Qed.

(** C3: no handler lets an exception out: every event handler the script
    registers returns normally on every page and event.  Some have no
    try/catch (handleOutsideClick, handleEscapeKey, handleResize,
    handleSkipLink, handleImageIntersection, the image, blur, input and
    timer listeners), but nothing in them raises.  The raising DOM call
    a handler can reach, [document.querySelector] on an invalid fragment
    in handleSmoothScroll, is caught and logged with its context.  Every
    feature initialiser is wrapped: whatever the six bodies do (for
    instance initMobileMenu raising on a header without
    [.header-container]), initializeFeatures returns normally and runs
    every initialiser after the previous one, and a wrapped body that
    raises is caught and logged. *)
Theorem handlers_never_escape :
  (forall (e : event) (p : page), snd (dispatch e p) = inl tt)
  /\ (forall (d : doc) (t : string) (w : world),
        starts_with_hash t = true -> query d t = QThrows ->
        handleSmoothScroll d (Some t) w
        = (add_console "[Fresh & Clean Laundry] Smooth scroll handler" w, inl tt))
  /\ (forall (smooth mobile lazy scrolltop form keyboard : M unit) (w : world),
        Guard.initializeFeatures smooth mobile lazy scrolltop form keyboard w =
        (add_console "[Fresh & Clean Laundry] Interactive features initialized successfully"
           (Guard.run_each (Guard.init_list smooth mobile lazy scrolltop form keyboard) w), inl tt))
  /\ (forall ctx (m : M unit) w e, snd (m w) = inr e ->
        wrap ctx m w = (add_console (String.append "[Fresh & Clean Laundry] " ctx) (fst (m w)), inl tt)).
Proof.
  destruct (GuardClaims.initializers_run_each (ret tt) (ret tt) (ret tt) (ret tt) (ret tt) (ret tt))
    as [_ [_ [Hs Hf]]].
  split; [|split; [|split]].
  - intros e p; destruct e; cbv beta iota delta [dispatch];
      first [ apply on_world_ok; first [apply wrap_snd | apply Hs | apply Hf | reflexivity]
            | unfold handleSkipLink; destruct (pmain p); reflexivity
            | unfold handleScroll, wrapH; reflexivity
            | reflexivity ].
  - intros d t w Hh Hq; unfold handleSmoothScroll, wrap, bind, querySelector.
    rewrite Hh; simpl; rewrite Hq; reflexivity.
  - intros; apply (GuardClaims.initializers_run_each smooth mobile lazy scrolltop form keyboard).
    
  - intros ctx m w e He; unfold wrap, logError, modify.
    destruct (m w) as [w' [a|e']]; simpl in He; [discriminate He | reflexivity].
Qed.

(** A document in which [#1] is an invalid selector (an id may not start
    with a digit). *)
Definition bad_doc : doc := mkDoc (fun s => if String.eqb s "#1" then QThrows else QNull) None 0 true.

Lemma handlers_never_escape_witness :
  handleSmoothScroll bad_doc (Some "#1") GuardClaims.w0
  = (add_console "[Fresh & Clean Laundry] Smooth scroll handler" GuardClaims.w0, inl tt).
Proof. apply (proj1 (proj2 handlers_never_escape)); reflexivity. Defined.

End Handlers.
